(** * BlueDisplay piano: key map and tone generator

    A shallow embedding of the two revisions of the ESP32 piano sketch:
    [piano2.ino] (the later sketch, modelled at top level) and the earlier
    sketch (modelled in [Module Rev1]).

    - [int] and [uint32_t] values are integers in [Z]; conversions between
      them are written out ([to_uint32], [to_uint8]).
    - A C string is represented by the characters before its terminator.
    - [volatile int currentFrequency] is the only shared variable.  The tone
      task is a small-step machine in which every step performs at most one
      access to it, and the touch callback is interleaved between steps by an
      explicit schedule.
    - The [double] arithmetic of the sample expression is idealised by real
      arithmetic; the assignment to [float val] rounds the result to the
      nearest binary32 number, ties to even ([to_float32]); the conversion to
      an integer truncates towards zero as in C. *)

From Stdlib Require Import ZArith List String Bool Lia Reals Lra.
Import ListNotations.

Local Open Scope Z_scope.

(** ** Machine integers *)

Definition INT_MAX : Z := 2147483647.
Definition INT_MIN : Z := -2147483648.

(** Conversion of an integer value to [uint32_t]. *)
Definition to_uint32 (x : Z) : Z := x mod 4294967296.

(** Conversion of an integer value to [uint8_t]. *)
Definition to_uint8 (x : Z) : Z := x mod 256.

Definition is_int (x : Z) : Prop := INT_MIN <= x <= INT_MAX.

(** ** The note table *)

Definition notes : list Z := [262; 294; 330; 349; 392; 440; 494; 523].

Definition noteNames : list string :=
  ["C"; "D"; "E"; "F"; "G"; "A"; "B"; "C5"]%string.

(** [sizeof(notes) / sizeof(notes[0])] *)
Definition NUM_KEYS : nat := List.length notes.

(** The table as a sequence of (name, frequency) pairs, in keyboard order. *)
Definition NoteTable : list (string * Z) := combine noteNames notes.

(** [strcmp]: zero exactly when both strings have the same characters. *)
Definition strcmp (a b : string) : Z :=
  match String.compare a b with
  | Eq => 0
  | Lt => -1
  | Gt => 1
  end.

(** ** The touch callback *)

(** The [for] loop of [buttonCallback]: [n] iterations are left, [i] is the
    loop index, [cf] the value of [currentFrequency] on entry.  The result is
    the value of [currentFrequency] when the callback returns. *)
Fixpoint key_scan (n : nat) (i : nat) (aCallbackString : string) (cf : Z) : Z :=
  match n with
  | O => cf
  | S n' =>
      if strcmp aCallbackString (nth i noteNames EmptyString) =? 0
      then nth i notes 0
      else key_scan n' (S i) aCallbackString cf
  end.

Definition buttonCallback (aCallbackString : string) (aValue : Z) (cf : Z) : Z :=
  if aValue =? 1 then key_scan NUM_KEYS 0 aCallbackString cf else 0.

(** The lookup the callback is meant to perform: first entry of the table
    whose name equals the label. *)
Definition first_match (label : string) : option Z :=
  match find (fun e => String.eqb label (fst e)) NoteTable with
  | Some e => Some (snd e)
  | None => None
  end.

(** ** The sine sample *)

(** Conversion of a real value to an integer type: the fractional part is
    discarded. *)
Definition trunc (x : R) : Z :=
  if Rle_dec 0 x then Int_part x else - Int_part (- x).

(** The integer nearest to a real, the even one of the two when it lies
    half-way between them. *)
Definition round_even (y : R) : Z :=
  let n := Int_part y in
  let r := (y - IZR n)%R in
  if Rlt_dec r (1 / 2) then n
  else if Rlt_dec (1 / 2) r then n + 1
  else if Z.even n then n else n + 1.

(** Search, downwards from [e] and over [n] candidates, for the largest
    exponent whose power of two does not exceed [x]. *)
Fixpoint binade (n : nat) (e : Z) (x : R) : Z :=
  match n with
  | O => e
  | S n' => if Rle_dec (powerRZ 2 e) x then e else binade n' (e - 1) x
  end.

(** Exponent of a non-negative real as a binary32 number: between -126
    (also for the subnormal numbers and zero) and 127. *)
Definition float32_exp (x : R) : Z := binade 253 127 x.

(** Rounding of a non-negative real to 24 significant bits. *)
Definition round_float32 (x : R) : R :=
  let e := float32_exp x - 23 in
  (IZR (round_even (x * powerRZ 2 (- e))) * powerRZ 2 e)%R.

(** Conversion of a [double] to [float]: the nearest binary32 number, ties
    to even (for values whose result is finite). *)
Definition to_float32 (x : R) : R :=
  if Rle_dec 0 x then round_float32 x else (- round_float32 (- x))%R.

(** [float val = 127.5 + 127.5 * sin(2 * PI * i / period_samples);] *)
Definition sine_val (i period_samples : Z) : R :=
  to_float32 (127.5 + 127.5 * sin (2 * PI * IZR i / IZR period_samples))%R.

(** The value handed to [dacWrite] for sample [i]. *)
Definition dac_sample (i period_samples : Z) : Z :=
  to_uint8 (trunc (sine_val i period_samples)).

Definition sampling_rate : Z := 20000.

(** The value written when no note is playing. *)
Definition MIDPOINT : Z := 128.

(** ** Observable events of the tone task

    The trace records, newest first, every read of [currentFrequency] made
    by the tone task and every [dacWrite].  A write made inside the waveform
    loop carries the frequency that is being played. *)

Inductive event : Type :=
| Rd (v : Z)
| Sample (f v : Z)
| Silence (v : Z).

(** The values handed to the DAC, oldest first. *)
Fixpoint dac_out (tr : list event) : list Z :=
  match tr with
  | [] => []
  | Rd _ :: older => dac_out older
  | Sample _ v :: older => dac_out older ++ [v]
  | Silence v :: older => dac_out older ++ [v]
  end.

(** Number of waveform samples of frequency [f] in a trace. *)
Fixpoint samples_of (f : Z) (tr : list event) : nat :=
  match tr with
  | [] => O
  | Sample g _ :: older =>
      if g =? f then S (samples_of f older) else samples_of f older
  | _ :: older => samples_of f older
  end.

(** Value returned by the most recent read of [currentFrequency]. *)
Fixpoint last_read (tr : list event) : option Z :=
  match tr with
  | [] => None
  | Rd v :: _ => Some v
  | _ :: older => last_read older
  end.

(** Every write that follows a read of zero, with no read of a nonzero
    value in between, is the midpoint written by the silent branch. *)
Fixpoint quiet_after_zero (tr : list event) : bool :=
  match tr with
  | [] => true
  | Rd _ :: older => quiet_after_zero older
  | Silence v :: older => (v =? MIDPOINT) && quiet_after_zero older
  | Sample _ _ :: older =>
      match last_read older with
      | Some 0 => false
      | _ => quiet_after_zero older
      end
  end.

(** ** The tone task of piano2.ino *)

Inductive loc : Type :=
| L_check     (* if (frequency != currentFrequency) *)
| L_latch     (* frequency = currentFrequency; *)
| L_branch    (* if (frequency > 0) { period_samples = ...; i = 0; *)
| L_for       (* i < period_samples *)
| L_write     (* dacWrite(DAC_PIN, (uint8_t)val); *)
| L_recheck   (* if (frequency != currentFrequency) break; *)
| L_delay     (* delayMicroseconds(...); i++ *)
| L_silence.  (* dacWrite(DAC_PIN, 128); vTaskDelay(...); *)

(** Local variables of [toneTask] and its program point. *)
Record tone : Type := mkTone {
  frequency : Z;        (* uint32_t *)
  period_samples : Z;   (* uint32_t *)
  loop_i : Z;           (* uint32_t i *)
  pc : loc
}.

Definition at_pc (t : tone) (l : loc) : tone :=
  mkTone (frequency t) (period_samples t) (loop_i t) l.

(** One step of [toneTask]; [cf] is the value [currentFrequency] holds when
    the step runs. *)
Definition tone_step (cf : Z) (t : tone) : tone * list event :=
  match pc t with
  | L_check =>
      if negb (frequency t =? to_uint32 cf)
      then (at_pc t L_latch, [Rd cf])
      else (at_pc t L_branch, [Rd cf])
  | L_latch =>
      (mkTone (to_uint32 cf) (period_samples t) (loop_i t) L_branch, [Rd cf])
  | L_branch =>
      if 0 <? frequency t
      then (mkTone (frequency t) (sampling_rate / frequency t) 0 L_for, [])
      else (at_pc t L_silence, [])
  | L_for =>
      if loop_i t <? period_samples t
      then (at_pc t L_write, [])
      else (at_pc t L_check, [])
  | L_write =>
      (at_pc t L_recheck,
       [Sample (frequency t) (dac_sample (loop_i t) (period_samples t))])
  | L_recheck =>
      if negb (frequency t =? to_uint32 cf)
      then (at_pc t L_check, [Rd cf])
      else (at_pc t L_delay, [Rd cf])
  | L_delay =>
      (mkTone (frequency t) (period_samples t) (to_uint32 (loop_i t + 1)) L_for,
       [])
  | L_silence =>
      (at_pc t L_check, [Silence 128])
  end.

(** [uint32_t frequency = 0;] on entry to the task. *)
Definition tone_init : tone := mkTone 0 0 0 L_check.

(** ** The tone task of the earlier sketch *)

Module Rev1.

Inductive loc : Type :=
| L_check     (* if (currentFrequency != 0) *)
| L_latch     (* frequency = currentFrequency; *)
| L_period    (* period = sampling_rate / frequency; i = 0; *)
| L_for       (* i < period *)
| L_write     (* dacWrite(DAC_PIN, (int)val); *)
| L_delay     (* delayMicroseconds(...); i++ *)
| L_silence   (* dacWrite(DAC_PIN, 128); vTaskDelay(1); *)
| L_fault.    (* division by zero: the task does not continue *)

Record tone : Type := mkTone {
  frequency : Z;   (* int *)
  period : Z;      (* uint32_t *)
  loop_i : Z;      (* int i *)
  pc : loc
}.

Definition at_pc (t : tone) (l : loc) : tone :=
  mkTone (frequency t) (period t) (loop_i t) l.

Definition tone_step (cf : Z) (t : tone) : tone * list event :=
  match pc t with
  | L_check =>
      if negb (cf =? 0)
      then (at_pc t L_latch, [Rd cf])
      else (at_pc t L_silence, [Rd cf])
  | L_latch =>
      (mkTone cf (period t) (loop_i t) L_period, [Rd cf])
  | L_period =>
      if to_uint32 (frequency t) =? 0
      then (at_pc t L_fault, [])
      else (mkTone (frequency t) (sampling_rate / to_uint32 (frequency t))
              0 L_for, [])
  | L_for =>
      if to_uint32 (loop_i t) <? period t
      then (at_pc t L_write, [])
      else (at_pc t L_check, [])
  | L_write =>
      (at_pc t L_delay,
       [Sample (frequency t) (dac_sample (loop_i t) (period t))])
  | L_delay =>
      (mkTone (frequency t) (period t) (loop_i t + 1) L_for, [])
  | L_silence =>
      (at_pc t L_check, [Silence 128])
  | L_fault =>
      (t, [])
  end.

(** [int frequency = 0;] on entry to the task. *)
Definition tone_init : tone := mkTone 0 0 0 L_check.

(** The [for] loop of the earlier [buttonCallback], which runs over the
    literal bound 8 and leaves the loop with [break]. *)
Fixpoint key_scan (n : nat) (i : nat) (aCallbackString : string) (cf : Z)
  : Z :=
  match n with
  | O => cf
  | S n' =>
      if strcmp aCallbackString (nth i noteNames EmptyString) =? 0
      then nth i notes 0
      else key_scan n' (S i) aCallbackString cf
  end.

Definition buttonCallback (aCallbackString : string) (aValue : Z) (cf : Z)
  : Z :=
  if aValue =? 1 then key_scan 8 0 aCallbackString cf else 0.

End Rev1.

(** ** The two tasks running together *)

Inductive action : Type :=
| Tick                                          (* the tone task takes a step *)
| Key (aCallbackString : string) (aValue : Z).  (* the display calls back *)

Section Interleaving.

Variable T : Type.

(** The step function of the tone task. *)
Variable tstep : Z -> T -> T * list event.

(** The touch callback. *)
Variable callback : string -> Z -> Z -> Z.

Record sys : Type := mkSys {
  currentFrequency : Z;   (* volatile int *)
  task : T;
  trace : list event
}.

Definition sys_step (a : action) (s : sys) : sys :=
  match a with
  | Tick =>
      let r := tstep (currentFrequency s) (task s) in
      mkSys (currentFrequency s) (fst r) (snd r ++ trace s)
  | Key label v =>
      mkSys (callback label v (currentFrequency s)) (task s) (trace s)
  end.

Fixpoint run (evs : list action) (s : sys) : sys :=
  match evs with
  | [] => s
  | a :: rest => run rest (sys_step a s)
  end.

(** [n] consecutive steps of the tone task, with no callback in between. *)
Definition ticks (n : nat) (s : sys) : sys := run (repeat Tick n) s.

End Interleaving.

Arguments mkSys {T} _ _ _.
Arguments currentFrequency {T} _.
Arguments task {T} _.
Arguments trace {T} _.
Arguments sys_step {T} _ _ _ _.
Arguments run {T} _ _ _ _.
Arguments ticks {T} _ _ _ _.

(** The system after [setup]: [currentFrequency] is 0 and nothing has been
    written yet. *)
Definition boot : sys tone := mkSys 0 tone_init [].

Definition step2 := sys_step tone_step buttonCallback.
Definition run2 := run tone_step buttonCallback.
Definition ticks2 := ticks tone_step buttonCallback.

Definition boot1 : sys Rev1.tone := mkSys 0 Rev1.tone_init [].

Definition step1 := sys_step Rev1.tone_step Rev1.buttonCallback.
Definition run1 := run Rev1.tone_step Rev1.buttonCallback.
Definition ticks1 := ticks Rev1.tone_step Rev1.buttonCallback.

(** One pass through the body of [while (true)]: the task steps, without
    interference, until it is back at the head of the loop. *)
Fixpoint play_period (fuel : nat) (s : sys tone) : option (sys tone) :=
  match fuel with
  | O => None
  | S k =>
      let s' := step2 Tick s in
      match pc (task s') with
      | L_check => Some s'
      | _ => play_period k s'
      end
  end.

Fixpoint play_period1 (fuel : nat) (s : sys Rev1.tone)
  : option (sys Rev1.tone) :=
  match fuel with
  | O => None
  | S k =>
      let s' := step1 Tick s in
      match Rev1.pc (task s') with
      | Rev1.L_check => Some s'
      | _ => play_period1 k s'
      end
  end.

(** The samples of one whole period of [p] samples, in the order written. *)
Definition sine_cycle (p : Z) : list Z :=
  map (fun k => dac_sample (Z.of_nat k) p) (seq 0 (Z.to_nat p)).

(** Number of steps the tone task takes in a schedule. *)
Fixpoint tick_count (evs : list action) : nat :=
  match evs with
  | [] => O
  | Tick :: rest => S (tick_count rest)
  | Key _ _ :: rest => tick_count rest
  end.



(** What the tone task of piano2.ino knows about its last read of
    [currentFrequency], by program point: inside the sounding branch the
    local frequency is positive and the last value read was not zero. *)
Definition silent_inv (s : sys tone) : Prop :=
  quiet_after_zero (trace s) = true /\
  match pc (task s) with
  | L_branch => 0 < frequency (task s) -> last_read (trace s) <> Some 0
  | L_for | L_write | L_delay =>
      0 < frequency (task s) /\ last_read (trace s) <> Some 0
  | L_recheck => 0 < frequency (task s)
  | L_check | L_latch | L_silence => True
  end.

(** The same for the earlier sketch, whose waveform loop never reads. *)
Definition silent_inv1 (s : sys Rev1.tone) : Prop :=
  quiet_after_zero (trace s) = true /\
  match Rev1.pc (task s) with
  | Rev1.L_period => last_read (trace s) = Some (Rev1.frequency (task s))
  | Rev1.L_for | Rev1.L_write | Rev1.L_delay => last_read (trace s) <> Some 0
  | _ => True
  end.

(** Along the schedule [evs] from [s], [currentFrequency] never holds the
    frequency [f0] (as the task compares it, converted to [uint32_t]). *)
Fixpoint stays_changed (f0 : Z) (evs : list action) (s : sys tone) : Prop :=
  to_uint32 (currentFrequency s) <> f0 /\
  match evs with
  | [] => True
  | a :: rest => stays_changed f0 rest (step2 a s)
  end.

(** How many samples of the waveform of [f0] the task may still write once
    [currentFrequency] differs from [f0]: one if it plays [f0] and is between
    the re-check and the next write, none otherwise. *)
Definition old_budget (f0 : Z) (t : tone) : nat :=
  if frequency t =? f0 then
    match pc t with
    | L_branch | L_for | L_write | L_delay => 1%nat
    | L_check | L_latch | L_recheck | L_silence => 0%nat
    end
  else 0%nat.

(** ** Further notions used for the runs of the tone task *)



(** [k] passes through the body of [while (true)], one after the other. *)
Fixpoint play_periods (k : nat) (fuel : nat) (s : sys tone)
  : option (sys tone) :=
  match k with
  | O => Some s
  | S k' =>
      match play_period fuel s with
      | Some s' => play_periods k' fuel s'
      | None => None
      end
  end.

(** Is the event a write to the DAC? *)
Definition is_write (e : event) : bool :=
  match e with
  | Rd _ => false
  | Sample _ _ => true
  | Silence _ => true
  end.

(** No two writes to the DAC are adjacent in the trace: a read of
    [currentFrequency] lies between them. *)
Fixpoint polled (tr : list event) : bool :=
  match tr with
  | [] => true
  | e :: older =>
      match older with
      | [] => true
      | e' :: _ => negb (is_write e && is_write e') && polled older
      end
  end.

(** Is the newest event of the trace a write? *)
Definition newest_is_write (tr : list event) : bool :=
  match tr with
  | [] => false
  | e :: _ => is_write e
  end.

(** piano2.ino: right after a write the task is at the re-check or at the
    head of the loop, the two places that read before anything else. *)
Definition poll_inv (s : sys tone) : Prop :=
  polled (trace s) = true /\
  match pc (task s) with
  | L_recheck | L_check => True
  | L_latch | L_branch | L_for | L_write | L_delay | L_silence =>
      newest_is_write (trace s) = false
  end.

(** piano2.ino: an upper bound on the number of task steps until the next
    write to the DAC, read off the program point and the loop test. *)
Definition write_deadline (t : tone) : nat :=
  match pc t with
  | L_write | L_silence => 1%nat
  | L_for => if loop_i t <? period_samples t then 2%nat else 6%nat
  | L_branch => 3%nat
  | L_latch => 4%nat
  | L_check => 5%nat
  | L_delay =>
      if to_uint32 (loop_i t + 1) <? period_samples t then 3%nat else 7%nat
  | L_recheck => 8%nat
  end.

(** The values [currentFrequency] can hold: 0 or a note. *)
Definition note_or_zero (c : Z) : Prop := c = 0 \/ In c notes.

(** piano2.ino: the shared variable holds 0 or a note, and so does the local
    copy when the branch on it is taken. *)
Definition live_inv (s : sys tone) : Prop :=
  note_or_zero (currentFrequency s) /\
  match pc (task s) with
  | L_branch => note_or_zero (frequency (task s))
  | _ => True
  end.

(** piano2.ino with a frequency above the sampling rate: the period has no
    samples and the task only moves between the head of the loop, the branch
    and the loop test. *)
Definition mute_inv (f : Z) (s : sys tone) : Prop :=
  currentFrequency s = f /\
  match pc (task s) with
  | L_check | L_latch => True
  | L_branch => frequency (task s) = to_uint32 f
  | L_for => period_samples (task s) = 0 /\ loop_i (task s) = 0
  | L_write | L_recheck | L_delay | L_silence => False
  end.

(** The same for the earlier sketch. *)
Definition mute_inv1 (f : Z) (s : sys Rev1.tone) : Prop :=
  currentFrequency s = f /\
  match Rev1.pc (task s) with
  | Rev1.L_check | Rev1.L_latch => True
  | Rev1.L_period => Rev1.frequency (task s) = f
  | Rev1.L_for => Rev1.period (task s) = 0 /\ Rev1.loop_i (task s) = 0
  | _ => False
  end.

(** ** The keyboard on the display

    The display library is not part of the sketch; its calls are recorded as
    commands.  Every button is created with [buttonCallback] as its callback,
    so only the string handed back to the callback is recorded. *)

Inductive color : Type :=
| BLUE_DISPLAY_DARK_GRAY
| BLUE_DISPLAY_WHITE
| BLUE_DISPLAY_BLACK.

Inductive display_cmd : Type :=
| Clear (c : color)
| DeleteAllButtons
| CreateButton (x y width height : Z) (caption aCallbackString : string)
| SetButtonColors (handle : Z) (button text border : color)
| Println (msg : string).

(** Conversion of an integer value to [int], as two's complement. *)
Definition to_int (x : Z) : Z := (x + 2147483648) mod 4294967296 - 2147483648.

(** Conversion of an integer value to [uint16_t]. *)
Definition to_uint16 (x : Z) : Z := x mod 65536.

(** The [for] loop of [drawPiano]: [n] iterations are left, [i] is the loop
    index, [handle k] is what the library returns for the button of key
    [k]. *)
Fixpoint draw_keys (n i : nat) (keyWidth displayHeight : Z)
  (handle : nat -> Z) : list display_cmd :=
  match n with
  | O => []
  | S n' =>
      CreateButton (to_int (Z.of_nat i * keyWidth)) 0 (to_int (keyWidth - 2))
        displayHeight (nth i noteNames EmptyString)
        (nth i noteNames EmptyString)
      :: SetButtonColors (to_uint16 (handle i))
           BLUE_DISPLAY_WHITE BLUE_DISPLAY_BLACK BLUE_DISPLAY_BLACK
      :: draw_keys n' (S i) keyWidth displayHeight handle
  end.

(** [drawPiano], for the display size the library reports.  Division of
    [int] values truncates towards zero. *)
Definition drawPiano (handle : nat -> Z) (displayWidth displayHeight : Z)
  : list display_cmd :=
  Clear BLUE_DISPLAY_DARK_GRAY
  :: DeleteAllButtons
  :: draw_keys NUM_KEYS 0 (Z.quot displayWidth (Z.of_nat NUM_KEYS))
       displayHeight handle
  ++ [Println "Piano Ready!"].

(** A button as the library is asked to create it. *)
Record button : Type := mkButton {
  b_x : Z;
  b_y : Z;
  b_width : Z;
  b_height : Z;
  b_caption : string;
  b_callback : string
}.

(** The buttons a command list creates, in the order of creation. *)
Fixpoint created (cmds : list display_cmd) : list button :=
  match cmds with
  | [] => []
  | CreateButton x y w h cap cb :: rest =>
      mkButton x y w h cap cb :: created rest
  | _ :: rest => created rest
  end.

(** The keys of the earlier sketch, drawn by the loop of its [setup];
    [height k] is what [getDisplayHeight] returns in iteration [k]. *)
Fixpoint draw_keys1 (n i : nat) (keyWidth : Z) (height : nat -> Z)
  : list display_cmd :=
  match n with
  | O => []
  | S n' =>
      CreateButton (to_int (Z.of_nat i * keyWidth)) 0 keyWidth (height i)
        (nth i noteNames EmptyString) (nth i noteNames EmptyString)
      :: draw_keys1 n' (S i) keyWidth height
  end.

Definition draw_setup1 (displayWidth : Z) (height : nat -> Z)
  : list display_cmd :=
  Clear BLUE_DISPLAY_BLACK
  :: draw_keys1 8 0 (Z.quot displayWidth 8) height.

(** ** Start-up of piano2.ino *)

Inductive setup_cmd : Type :=
| SerialBegin (baud : Z)
| BluetoothBegin (baud : Z)
| SerialPrintln (msg : string)
| Delay (ms : Z)
| Display (c : display_cmd)
| CreateToneTask (stack priority core : Z).

(** The loop [while (!blueDisplay.begin())]; [results] lists what the
    successive calls of [begin] return.  The boolean tells whether the loop
    was left; when the list runs out first, it was not. *)
Fixpoint await_connection (results : list bool) : list setup_cmd * bool :=
  match results with
  | [] => ([], false)
  | true :: _ => ([], true)
  | false :: rest =>
      let r := await_connection rest in
      (SerialPrintln "Timeout. Retrying..." :: Delay 1000 :: fst r, snd r)
  end.

(** What [setup] does, as far as the calls of [begin] in [results] carry
    it. *)
Definition setup (results : list bool) (handle : nat -> Z)
  (displayWidth displayHeight : Z) : list setup_cmd :=
  let r := await_connection results in
  [SerialBegin 115200; BluetoothBegin 9600;
   SerialPrintln "Waiting for BlueDisplay app to connect..."]
  ++ fst r
  ++ (if snd r
      then SerialPrintln "BlueDisplay connected!"
           :: map Display (drawPiano handle displayWidth displayHeight)
           ++ [CreateToneTask 4096 1 1]
      else []).

(** Number of failed calls of [begin] before the first one that succeeds. *)
Fixpoint failures_before_success (results : list bool) : nat :=
  match results with
  | false :: rest => S (failures_before_success rest)
  | _ => O
  end.

(** Number of one-second waits in a command list. *)
Fixpoint count_delays (cmds : list setup_cmd) : nat :=
  match cmds with
  | [] => O
  | Delay _ :: rest => S (count_delays rest)
  | _ :: rest => count_delays rest
  end.

(** Does the command list start the tone task? *)
Fixpoint starts_tone_task (cmds : list setup_cmd) : bool :=
  match cmds with
  | [] => false
  | CreateToneTask _ _ _ :: _ => true
  | _ :: rest => starts_tone_task rest
  end.

(** Does the command list touch the display? *)
Fixpoint touches_display (cmds : list setup_cmd) : bool :=
  match cmds with
  | [] => false
  | Display _ :: _ => true
  | _ :: rest => touches_display rest
  end.

(** piano2.ino: an upper bound on the number of task steps until the local
    [frequency] equals the value [cf] of [currentFrequency], if that value
    stays. *)
Definition observe_deadline (cf : Z) (t : tone) : nat :=
  if frequency t =? to_uint32 cf then 0%nat
  else
    match pc t with
    | L_latch => 1%nat
    | L_check => 2%nat
    | L_recheck | L_silence => 3%nat
    | L_write => 4%nat
    | L_for => if loop_i t <? period_samples t then 5%nat else 3%nat
    | L_branch | L_delay => 6%nat
    end.

(** An event a run from boot can produce: a read of 0 or of a note, the
    midpoint, or the sample with an index inside the period of a note. *)
Definition note_event (e : event) : Prop :=
  match e with
  | Rd v => note_or_zero v
  | Silence v => v = MIDPOINT
  | Sample f v =>
      In f notes /\
      exists i, 0 <= i < sampling_rate / f /\
                v = dac_sample i (sampling_rate / f)
  end.

(** piano2.ino: inside the waveform loop the local frequency is a note, the
    period is the one of that note and the index has not left it. *)
Definition tone_inv (s : sys tone) : Prop :=
  note_or_zero (currentFrequency s) /\
  note_or_zero (frequency (task s)) /\
  match pc (task s) with
  | L_for =>
      In (frequency (task s)) notes /\
      period_samples (task s) = sampling_rate / frequency (task s) /\
      0 <= loop_i (task s) <= period_samples (task s)
  | L_write | L_recheck | L_delay =>
      In (frequency (task s)) notes /\
      period_samples (task s) = sampling_rate / frequency (task s) /\
      0 <= loop_i (task s) < period_samples (task s)
  | L_check | L_latch | L_branch | L_silence => True
  end.

(** The same for the earlier sketch. *)
Definition tone_inv1 (s : sys Rev1.tone) : Prop :=
  note_or_zero (currentFrequency s) /\
  note_or_zero (Rev1.frequency (task s)) /\
  match Rev1.pc (task s) with
  | Rev1.L_for =>
      In (Rev1.frequency (task s)) notes /\
      Rev1.period (task s) = sampling_rate / Rev1.frequency (task s) /\
      0 <= Rev1.loop_i (task s) <= Rev1.period (task s)
  | Rev1.L_write | Rev1.L_delay =>
      In (Rev1.frequency (task s)) notes /\
      Rev1.period (task s) = sampling_rate / Rev1.frequency (task s) /\
      0 <= Rev1.loop_i (task s) < Rev1.period (task s)
  | _ => True
  end.

(** ** Progress of the waveform loop *)







(** ** Facts about the sample *)

Lemma string_compare_refl (a : string) : String.compare a a = Eq.
Proof.
  pose proof (String.compare_antisym a a) as H.
  destruct (String.compare a a); simpl in H; congruence.
Qed.

Lemma strcmp_zero_iff (a b : string) : strcmp a b = 0 <-> a = b.
Proof.
  unfold strcmp. split.
  - destruct (String.compare a b) eqn:E; try discriminate.
    intros _. now apply String.compare_eq_iff.
  - intros ->. now rewrite string_compare_refl.
Qed.

Lemma strcmp_eqb (a b : string) : (strcmp a b =? 0) = String.eqb a b.
Proof.
  destruct (String.eqb_spec a b) as [->|N].
  - apply Z.eqb_eq. now apply strcmp_zero_iff.
  - apply Z.eqb_neq. intros H. apply N. now apply strcmp_zero_iff.
Qed.

Lemma trunc_nonneg (x : R) (z : Z) :
  (IZR z <= x < IZR z + 1)%R -> 0 <= z -> trunc x = z.
Proof.
  intros [Hlo Hhi] Hz. unfold trunc.
  destruct (Rle_dec 0 x) as [_|N].
  - symmetry. apply Int_part_spec. split; lra.
  - exfalso. apply N. apply Rle_trans with (IZR z); [|exact Hlo].
    now apply IZR_le.
Qed.

Lemma trunc_range (x : R) : (0 <= x <= 255)%R -> 0 <= trunc x <= 255.
Proof.
  intros [Hlo Hhi]. unfold trunc.
  destruct (Rle_dec 0 x) as [_|N]; [|contradiction].
  destruct (base_Int_part x) as [Hle Hgt].
  split.
  - apply le_IZR. apply Rnot_lt_le. intros Hneg.
    assert (Hz : Int_part x <= -1).
    { apply Z.lt_succ_r. simpl. now apply lt_IZR. }
    apply IZR_le in Hz. lra.
  - apply le_IZR. lra.
Qed.

(** *** Rounding to binary32 *)

Lemma round_even_lower (y : R) (a : Z) : (IZR a <= y)%R -> a <= round_even y.
Proof.
  intros Ha. unfold round_even.
  destruct (base_Int_part y) as [Hle Hgt].
  assert (Hn : a <= Int_part y).
  { assert (a < Int_part y + 1) by (apply lt_IZR; rewrite plus_IZR; lra).
    lia. }
  destruct (Rlt_dec _ _); [exact Hn|].
  destruct (Rlt_dec _ _); [lia|].
  destruct (Z.even _); lia.
Qed.

Lemma round_even_upper (y : R) (b : Z) : (y <= IZR b)%R -> round_even y <= b.
Proof.
  intros Hb. unfold round_even.
  destruct (base_Int_part y) as [Hle Hgt].
  assert (Hn : Int_part y <= b) by (apply le_IZR; lra).
  destruct (Rlt_dec _ _) as [|N1]; [exact Hn|].
  assert (Hn1 : Int_part y + 1 <= b).
  { assert (Int_part y < b) by (apply lt_IZR; lra). lia. }
  destruct (Rlt_dec _ _); [exact Hn1|].
  destruct (Z.even _); lia.
Qed.

Lemma round_even_IZR (z : Z) : round_even (IZR z) = z.
Proof.
  apply Z.le_antisymm.
  - apply round_even_upper. lra.
  - apply round_even_lower. lra.
Qed.

Lemma pow2_pos (e : Z) : (0 < powerRZ 2 e)%R.
Proof. apply powerRZ_lt. lra. Qed.

Lemma pow2_le (a b : Z) : a <= b -> (powerRZ 2 a <= powerRZ 2 b)%R.
Proof.
  intros H.
  replace b with (a + Z.of_nat (Z.to_nat (b - a))) by lia.
  rewrite powerRZ_add by lra. rewrite <- pow_powerRZ.
  pose proof (pow_R1_Rle 2 (Z.to_nat (b - a)) ltac:(lra)) as H1.
  pose proof (powerRZ_lt 2 a ltac:(lra)) as H2.
  nra.
Qed.

Lemma pow2_cancel (e : Z) : (powerRZ 2 (- e) * powerRZ 2 e = 1)%R.
Proof.
  rewrite <- powerRZ_add by lra. replace (- e + e) with 0 by lia. reflexivity.
Qed.

(** The exponent found is at most [top] and at least [top - n]; the value is
    below the next power of two unless the exponent is [top]; and it is at
    least the power found unless the search ran out. *)
Lemma binade_spec (n : nat) :
  forall (top : Z) (x : R),
    let e := binade n top x in
    top - Z.of_nat n <= e <= top /\
    (e < top -> (x < powerRZ 2 (e + 1))%R) /\
    (top - Z.of_nat n < e -> (powerRZ 2 e <= x)%R).
Proof.
  induction n as [|n IH]; intros top x; cbn [binade].
  - cbn zeta. split; [lia|]. split; intros; lia.
  - destruct (Rle_dec (powerRZ 2 top) x) as [Hle|Hgt].
    + cbn zeta. split; [lia|]. split; [lia|]. intros _. exact Hle.
    + specialize (IH (top - 1) x). cbn zeta in *.
      destruct IH as [Hr [Hup Hlo]].
      split; [lia|]. split.
      * intros _. destruct (Z.eq_dec (binade n (top - 1) x) (top - 1)) as [E|NE].
        -- rewrite E. replace (top - 1 + 1) with top by lia. lra.
        -- apply Hup. lia.
      * intros H. apply Hlo. lia.
Qed.

Lemma float32_exp_of (x : R) (e : Z) :
  -126 <= e <= 127 ->
  (powerRZ 2 e <= x < powerRZ 2 (e + 1))%R ->
  float32_exp x = e.
Proof.
  intros He [Hlo Hhi]. unfold float32_exp.
  destruct (binade_spec 253 127 x) as [Hr [Hup Hlow]]. cbn zeta in *.
  set (b := binade 253 127 x) in *.
  destruct (Z.lt_trichotomy b e) as [Hlt|[Heq|Hgt]]; [|exact Heq|].
  - exfalso. assert (Hb : b < 127) by lia. specialize (Hup Hb).
    pose proof (pow2_le (b + 1) e ltac:(lia)). lra.
  - exfalso. assert (Hb : 127 - Z.of_nat 253 < b) by lia. specialize (Hlow Hb).
    pose proof (pow2_le (e + 1) b ltac:(lia)). lra.
Qed.

Lemma pow2_IZR (m : Z) : 0 <= m -> powerRZ 2 m = IZR (2 ^ m).
Proof.
  intros Hm. rewrite <- (Z2Nat.id m Hm) at 1.
  rewrite <- pow_powerRZ, pow_IZR. now rewrite Z2Nat.id.
Qed.

Lemma float32_exp_range (x : R) : -126 <= float32_exp x <= 127.
Proof.
  unfold float32_exp.
  destruct (binade_spec 253 127 x) as [Hr _]. cbn zeta in Hr. lia.
Qed.

Lemma float32_exp_le (x : R) (k : Z) :
  -126 <= k -> (x < powerRZ 2 (k + 1))%R -> float32_exp x <= k.
Proof.
  intros Hk Hx. unfold float32_exp.
  destruct (binade_spec 253 127 x) as [Hr [_ Hlow]]. cbn zeta in *.
  set (b := binade 253 127 x) in *.
  destruct (Z_le_gt_dec b k) as [H|H]; [exact H|exfalso].
  assert (Hb : 127 - Z.of_nat 253 < b) by lia. specialize (Hlow Hb).
  pose proof (pow2_le (k + 1) b ltac:(lia)). lra.
Qed.

Lemma round_float32_range (x : R) :
  (0 <= x <= 255)%R -> (0 <= round_float32 x <= 255)%R.
Proof.
  intros [H0 H255]. unfold round_float32.
  assert (HE : float32_exp x <= 7).
  { apply float32_exp_le; [lia|]. rewrite pow2_IZR by lia.
    change (2 ^ (7 + 1)) with 256. lra. }
  pose proof (float32_exp_range x) as HR.
  set (e := float32_exp x - 23) in *.
  pose proof (pow2_pos e) as Hpe. pose proof (pow2_pos (- e)) as Hpm.
  pose proof (pow2_cancel e) as Hc.
  split.
  - apply Rmult_le_pos; [|lra].
    apply IZR_le. apply round_even_lower. cbn. nra.
  - assert (Hup : round_even (x * powerRZ 2 (- e)) <= 255 * 2 ^ (- e)).
    { apply round_even_upper. rewrite mult_IZR, <- pow2_IZR by lia. nra. }
    apply IZR_le in Hup. rewrite mult_IZR, <- pow2_IZR in Hup by lia.
    nra.
Qed.

Lemma to_float32_range (x : R) :
  (0 <= x <= 255)%R -> (0 <= to_float32 x <= 255)%R.
Proof.
  intros H. unfold to_float32.
  destruct (Rle_dec 0 x) as [_|N]; [now apply round_float32_range|lra].
Qed.

Lemma to_float32_127_5 : to_float32 127.5 = 127.5%R.
Proof.
  unfold to_float32. destruct (Rle_dec 0 127.5) as [_|N]; [|lra].
  unfold round_float32.
  rewrite (float32_exp_of 127.5 6).
  - change (6 - 23) with (-17). change (- -17) with 17.
    rewrite (pow2_IZR 17) by lia.
    replace (127.5 * IZR (2 ^ 17))%R with (IZR 16711680)
      by (change (2 ^ 17) with 131072; lra).
    rewrite round_even_IZR.
    pose proof (pow2_cancel (-17)) as Hc. change (- -17) with 17 in Hc.
    rewrite (pow2_IZR 17) in Hc by lia. change (2 ^ 17) with 131072 in Hc.
    lra.
  - lia.
  - rewrite !pow2_IZR by lia. change (2 ^ 6) with 64.
    change (2 ^ (6 + 1)) with 128. lra.
Qed.

Lemma sine_val_range (i p : Z) : (0 <= sine_val i p <= 255)%R.
Proof.
  unfold sine_val. apply to_float32_range.
  destruct (SIN_bound (2 * PI * IZR i / IZR p)) as [Hlo Hhi].
  split; lra.
Qed.

Lemma dac_sample_trunc (i p : Z) : dac_sample i p = trunc (sine_val i p).
Proof.
  unfold dac_sample, to_uint8. apply Z.mod_small.
  pose proof (trunc_range _ (sine_val_range i p)). lia.
Qed.

Lemma dac_sample_range (i p : Z) : 0 <= dac_sample i p <= 255.
Proof.
  rewrite dac_sample_trunc. apply trunc_range, sine_val_range.
Qed.

Lemma sine_val_0 (p : Z) : sine_val 0 p = 127.5%R.
Proof.
  unfold sine_val.
  replace (2 * PI * 0 / IZR p)%R with 0%R by (unfold Rdiv; ring).
  rewrite sin_0.
  replace (127.5 + 127.5 * 0)%R with 127.5%R by lra.
  apply to_float32_127_5.
Qed.

Lemma dac_sample_0 (p : Z) : dac_sample 0 p = 127.
Proof.
  rewrite dac_sample_trunc, sine_val_0.
  apply trunc_nonneg; [lra | lia].
Qed.

(** *** Where the rounding of [float val] shows

    With a period of 20000 samples, the exact value of sample 4999 is just
    below 255, by less than half the spacing of binary32 numbers there: the
    [float] is 255.0 and 255 is written, where the truncation of the exact
    value would be 254. *)

Lemma round_even_up (y : R) (n : Z) :
  (IZR n + 1 / 2 < y < IZR n + 1)%R -> round_even y = n + 1.
Proof.
  intros [Hlo Hhi]. unfold round_even.
  assert (Hn : Int_part y = n).
  { symmetry. apply Int_part_spec. split; lra. }
  rewrite Hn.
  destruct (Rlt_dec _ _) as [H|_]; [lra|].
  destruct (Rlt_dec _ _) as [_|H]; [reflexivity|lra].
Qed.

Lemma PI_upper : (PI <= 3.4)%R.
Proof.
  pose proof (PI_ineq 2) as [_ H].
  unfold tg_alt, PI_tg in H. simpl in H. lra.
Qed.

Lemma cos_small (a : R) :
  (0 <= a <= 1)%R ->
  (1 - a * a / 2 <= cos a <= 1 - a * a / 2 + a * a * a * a / 24)%R.
Proof.
  intros [H0 H1]. pose proof PI2_1 as HP.
  assert (Hlo : (- PI / 2 <= a)%R) by lra.
  assert (Hhi : (a <= PI / 2)%R) by lra.
  pose proof (cos_bound a 0 Hlo Hhi) as H.
  unfold cos_approx, cos_term in H. simpl in H. lra.
Qed.

Lemma near_peak_value :
  (255 - / 131072 < 127.5 + 127.5 * sin (2 * PI * IZR 4999 / IZR 20000) < 255)%R
  /\
  (255 - / 131072 < 127.5 + 127.5 * sin (2 * PI * IZR 5001 / IZR 20000) < 255)%R.
Proof.
  replace (2 * PI * 4999 / 20000)%R with (PI / 2 - PI / 10000)%R by field.
  replace (2 * PI * 5001 / 20000)%R with (PI / 2 - - (PI / 10000))%R by field.
  rewrite !sin_shift, cos_neg.
  pose proof PI_RGT_0 as Hp. pose proof PI_upper as Hu.
  assert (Ha : (0 < PI / 10000 <= 0.00034)%R) by lra.
  set (a := (PI / 10000)%R) in *.
  destruct (cos_small a ltac:(lra)) as [Hlo Hhi].
  assert (Hsq : (0 < a * a <= 0.00034 * 0.00034)%R) by nra.
  repeat split; nra.
Qed.

(** A value less than half a binary32 step below 255 is rounded to 255. *)
Lemma just_below_255 (x : R) :
  (255 - / 131072 < x < 255)%R ->
  to_uint8 (trunc (to_float32 x)) = 255 /\ to_uint8 (trunc x) = 254.
Proof.
  intros [Hlo Hhi]. split.
  - assert (Hf : to_float32 x = 255%R).
    { unfold to_float32. destruct (Rle_dec 0 x) as [_|N]; [|lra].
      unfold round_float32.
      rewrite (float32_exp_of x 7).
      - change (7 - 23) with (-16). change (- -16) with 16.
        rewrite (pow2_IZR 16) by lia. change (2 ^ 16) with 65536.
        rewrite (round_even_up _ 16711679) by (split; lra).
        pose proof (pow2_cancel (-16)) as Hc. change (- -16) with 16 in Hc.
        rewrite (pow2_IZR 16) in Hc by lia. change (2 ^ 16) with 65536 in Hc.
        change (16711679 + 1) with 16711680. lra.
      - lia.
      - rewrite !pow2_IZR by lia. change (2 ^ 7) with 128.
        change (2 ^ (7 + 1)) with 256. lra. }
    rewrite Hf. rewrite (trunc_nonneg 255 255) by (first [split; lra | lia]).
    reflexivity.
  - rewrite (trunc_nonneg x 254) by (first [split; lra | lia]). reflexivity.
Qed.

(** At 1 Hz the samples next to the peak are written as 255, not as the
    truncation 254 of their exact value. *)
Lemma near_peak_rounds_up :
  dac_sample 4999 20000 = 255 /\
  dac_sample 5001 20000 = 255 /\
  to_uint8
    (trunc (127.5 + 127.5 * sin (2 * PI * IZR 4999 / IZR 20000))%R) = 254.
Proof.
  destruct near_peak_value as [H1 H2].
  split; [exact (proj1 (just_below_255 _ H1))|].
  split; [exact (proj1 (just_below_255 _ H2))|].
  exact (proj2 (just_below_255 _ H1)).
Qed.

(** ** Facts about the touch callback *)

Lemma rev1_buttonCallback_eq (label : string) (v cf : Z) :
  Rev1.buttonCallback label v cf = buttonCallback label v cf.
Proof. reflexivity. Qed.

(** The scan returns the frequency of the first entry whose name equals the
    label, and leaves the value alone when there is none. *)
Lemma key_scan_first_match (label : string) (cf : Z) :
  key_scan NUM_KEYS 0 label cf =
  match first_match label with
  | Some f => f
  | None => cf
  end.
Proof.
  unfold first_match, NoteTable, NUM_KEYS, notes, noteNames.
  cbn [List.length key_scan nth combine find fst snd].
  rewrite !strcmp_eqb.
  repeat (destruct (String.eqb label _); [reflexivity|]).
  reflexivity.
Qed.

Lemma first_match_in (label : string) (f : Z) :
  In (label, f) NoteTable -> first_match label = Some f.
Proof.
  unfold NoteTable, noteNames, notes. cbn [combine In].
  intros H.
  repeat (destruct H as [H|H]; [injection H as <- <-; reflexivity|]).
  contradiction.
Qed.

Lemma first_match_none (label : string) :
  ~ In label noteNames -> first_match label = None.
Proof.
  intros H. unfold first_match.
  destruct (find _ NoteTable) as [[n f]|] eqn:E; [|reflexivity].
  exfalso. apply H.
  apply find_some in E. destruct E as [Hin Heq]. cbn [fst] in Heq.
  apply String.eqb_eq in Heq. subst n.
  unfold NoteTable in Hin. now apply in_combine_l in Hin.
Qed.

Lemma first_match_notes (label : string) (f : Z) :
  first_match label = Some f -> In f notes.
Proof.
  unfold first_match.
  destruct (find _ NoteTable) as [[n g]|] eqn:E; [|discriminate].
  cbn [snd]. intros [= <-].
  apply find_some in E. destruct E as [Hin _].
  unfold NoteTable in Hin. now apply in_combine_r in Hin.
Qed.

Lemma buttonCallback_range (label : string) (v cf : Z) :
  (cf = 0 \/ In cf notes) ->
  buttonCallback label v cf = 0 \/ In (buttonCallback label v cf) notes.
Proof.
  intros Hcf. unfold buttonCallback.
  destruct (v =? 1); [|now left].
  rewrite key_scan_first_match.
  destruct (first_match label) as [f|] eqn:E; [|exact Hcf].
  right. now apply first_match_notes with label.
Qed.

(** ** Facts about schedules, for any tone task and callback *)

Section InterleavingFacts.

Variable T : Type.
Variable tstep : Z -> T -> T * list event.
Variable callback : string -> Z -> Z -> Z.

Let step := sys_step tstep callback.
Let exec := run tstep callback.

Lemma run_app (e1 e2 : list action) (s : sys T) :
  exec (e1 ++ e2) s = exec e2 (exec e1 s).
Proof.
  revert s. induction e1 as [|a e1 IH]; intros s; [reflexivity|].
  cbn [app]. unfold exec in *. cbn [run]. apply IH.
Qed.

(** The tone task never writes the shared variable. *)
Lemma tick_keeps_frequency (s : sys T) :
  currentFrequency (step Tick s) = currentFrequency s.
Proof. reflexivity. Qed.

(** The callback touches nothing but the shared variable. *)
Lemma key_keeps_task (label : string) (v : Z) (s : sys T) :
  task (step (Key label v) s) = task s /\
  trace (step (Key label v) s) = trace s.
Proof. split; reflexivity. Qed.

(** A callback that stores the value already held changes nothing. *)
Lemma key_same_value (label : string) (v : Z) (s : sys T) :
  callback label v (currentFrequency s) = currentFrequency s ->
  step (Key label v) s = s.
Proof.
  intros H. unfold step. cbn [sys_step]. rewrite H. now destruct s.
Qed.

(** A property of the shared variable that every callback preserves holds
    after every schedule. *)
Lemma run_frequency_invariant (P : Z -> Prop) :
  (forall label v c, P c -> P (callback label v c)) ->
  forall evs s, P (currentFrequency s) -> P (currentFrequency (exec evs s)).
Proof.
  intros Hcb evs. induction evs as [|a evs IH]; intros s Hs; [exact Hs|].
  unfold exec in *. cbn [run]. apply IH.
  destruct a as [|label v]; cbn [sys_step currentFrequency]; auto.
Qed.

End InterleavingFacts.

(** ** Claims about the touch callback *)

Example press_C5 : buttonCallback "C5" 1 0 = 523.
Proof. reflexivity. Qed.

Example press_lowercase_c : buttonCallback "c" 1 440 = 440.
Proof. reflexivity. Qed.

Example release_any : buttonCallback "Z" 0 440 = 0.
Proof. reflexivity. Qed.

(** C3: a press whose label is a name of the note table stores exactly the
    frequency paired with that name; the scan is a first-match lookup.  This
    holds for the callback of both sketches. *)
Theorem press_sets_paired_frequency (L : string) (f cf : Z) :
  In (L, f) NoteTable ->
  buttonCallback L 1 cf = f /\
  Rev1.buttonCallback L 1 cf = f /\
  first_match L = Some f /\
  (forall (s : sys tone), currentFrequency (step2 (Key L 1) s) = f) /\
  (forall (label : string) (c : Z),
     buttonCallback label 1 c =
       match first_match label with Some g => g | None => c end).
Proof.
  intros Hin.
  assert (Hcb : forall c, buttonCallback L 1 c = f).
  { intros c. unfold buttonCallback. cbn [Z.eqb Pos.eqb].
    rewrite key_scan_first_match.
    now rewrite (first_match_in L f Hin). }
  split; [apply Hcb|]. split; [rewrite rev1_buttonCallback_eq; apply Hcb|].
  split; [now apply first_match_in|]. split.
  - intros s. unfold step2. cbn [sys_step currentFrequency]. apply Hcb.
  - intros label c. unfold buttonCallback. cbn [Z.eqb Pos.eqb].
    apply key_scan_first_match.
Qed.

Lemma press_sets_paired_frequency_witness :
  In ("G"%string, 392) NoteTable /\
  buttonCallback "G" 1 262 = 392.
Proof.
  assert (H : In ("G"%string, 392) NoteTable).
  { unfold NoteTable. simpl. tauto. }
  split; [exact H|].
  exact (proj1 (press_sets_paired_frequency "G" 392 262 H)).
Defined.

(** C4: a release stores 0, whatever the label and whatever was stored. *)
Theorem release_sets_zero (label : string) (cf : Z) :
  buttonCallback label 0 cf = 0 /\
  Rev1.buttonCallback label 0 cf = 0 /\
  (forall (s : sys tone), currentFrequency (step2 (Key label 0) s) = 0).
Proof.
  repeat split.
Qed.

(** C6: a press whose label is no name of the note table leaves
    [currentFrequency], and the whole state, as it was. *)
Theorem unknown_press_is_noop (label : string) (cf : Z) :
  ~ In label noteNames ->
  buttonCallback label 1 cf = cf /\
  Rev1.buttonCallback label 1 cf = cf /\
  (forall (s : sys tone), step2 (Key label 1) s = s) /\
  (forall (s : sys Rev1.tone), step1 (Key label 1) s = s).
Proof.
  intros Hnot.
  assert (Hcb : forall c, buttonCallback label 1 c = c).
  { intros c. unfold buttonCallback. cbn [Z.eqb Pos.eqb].
    rewrite key_scan_first_match.
    now rewrite (first_match_none label Hnot). }
  split; [apply Hcb|]. split; [rewrite rev1_buttonCallback_eq; apply Hcb|].
  split; intros s.
  - apply key_same_value. apply Hcb.
  - apply key_same_value. rewrite rev1_buttonCallback_eq. apply Hcb.
Qed.

Lemma unknown_press_is_noop_witness :
  ~ In "H"%string noteNames /\ buttonCallback "H" 1 440 = 440.
Proof.
  assert (H : ~ In "H"%string noteNames).
  { unfold noteNames. simpl. intros K.
    repeat (destruct K as [K|K]; [discriminate K|]). exact K. }
  split; [exact H|].
  exact (proj1 (unknown_press_is_noop "H" 440 H)).
Defined.

(** C9: every event value other than 1 is handled as a release: 0 is
    stored.  Only the value 1 starts the lookup. *)
Theorem non_one_value_is_release (label : string) (v cf : Z) :
  v <> 1 ->
  buttonCallback label v cf = 0 /\
  Rev1.buttonCallback label v cf = 0 /\
  buttonCallback label 1 cf = key_scan NUM_KEYS 0 label cf.
Proof.
  intros Hv. apply Z.eqb_neq in Hv.
  unfold Rev1.buttonCallback, buttonCallback. rewrite Hv.
  repeat split.
Qed.

Lemma non_one_value_is_release_witness :
  2 <> 1 /\ buttonCallback "C" 2 262 = 0.
Proof.
  assert (H : 2 <> 1) by lia.
  split; [exact H|].
  exact (proj1 (non_one_value_is_release "C" 2 262 H)).
Defined.

(** C5: [currentFrequency] is 0 after [setup]; the tone task never changes
    it; and after every schedule of task steps and callbacks it is 0 or one
    of the eight note frequencies. *)
Theorem frequency_is_zero_or_note (evs : list action) :
  currentFrequency boot = 0 /\
  (forall s : sys tone,
     currentFrequency (step2 Tick s) = currentFrequency s) /\
  (currentFrequency (run2 evs boot) = 0 \/
   In (currentFrequency (run2 evs boot)) notes) /\
  (currentFrequency (run1 evs boot1) = 0 \/
   In (currentFrequency (run1 evs boot1)) notes).
Proof.
  split; [reflexivity|]. split; [reflexivity|]. split.
  - apply (run_frequency_invariant tone tone_step buttonCallback
             (fun c => c = 0 \/ In c notes)).
    + intros label v c. apply buttonCallback_range.
    + now left.
  - apply (run_frequency_invariant Rev1.tone Rev1.tone_step
             Rev1.buttonCallback (fun c => c = 0 \/ In c notes)).
    + intros label v c. rewrite rev1_buttonCallback_eq.
      apply buttonCallback_range.
    + now left.
Qed.

(** ** One uninterrupted pass of the waveform loop *)

Lemma play_period_unroll (fuel : nat) (s : sys tone) :
  play_period (S fuel) s =
  match pc (task (step2 Tick s)) with
  | L_check => Some (step2 Tick s)
  | _ => play_period fuel (step2 Tick s)
  end.
Proof. reflexivity. Qed.

Lemma play_period1_unroll (fuel : nat) (s : sys Rev1.tone) :
  play_period1 (S fuel) s =
  match Rev1.pc (task (step1 Tick s)) with
  | Rev1.L_check => Some (step1 Tick s)
  | _ => play_period1 fuel (step1 Tick s)
  end.
Proof. reflexivity. Qed.

Lemma to_uint32_small (x : Z) : 0 <= x < 4294967296 -> to_uint32 x = x.
Proof. intros H. unfold to_uint32. now apply Z.mod_small. Qed.

Lemma period_bounds (f : Z) : 0 < f -> 0 <= sampling_rate / f <= 20000.
Proof.
  intros Hf. unfold sampling_rate. split.
  - apply Z.div_pos; lia.
  - apply Z.div_le_upper_bound; nia.
Qed.

Lemma shifted_samples (k p : Z) (n : nat) :
  dac_sample k p ::
    map (fun j => dac_sample (k + 1 + Z.of_nat j) p) (seq 0 n) =
  map (fun j => dac_sample (k + Z.of_nat j) p) (seq 0 (S n)).
Proof.
  cbn [seq map]. f_equal.
  - f_equal. lia.
  - rewrite <- seq_shift, map_map. apply map_ext.
    intros j. f_equal. lia.
Qed.

(** Simplification of one step of piano2.ino at a known program point. *)
Ltac tone_simpl :=
  repeat progress
    (unfold step2, at_pc;
     cbn [sys_step tone_step pc task fst snd currentFrequency trace
          loop_i period_samples frequency app negb]).

(** From the loop test with index [k], the remaining [n] samples are
    written and the loop is left with [i = period_samples]. *)
Lemma loop_uninterrupted (n : nat) :
  forall (k p cf : Z) (tr : list event) (fuel : nat),
    0 <= k -> k + Z.of_nat n = p -> p < 4294967296 ->
    (4 * n + 1 <= fuel)%nat ->
    exists tr',
      play_period fuel (mkSys cf (mkTone (to_uint32 cf) p k L_for) tr) =
        Some (mkSys cf (mkTone (to_uint32 cf) p p L_check) tr') /\
      dac_out tr' =
        dac_out tr ++ map (fun j => dac_sample (k + Z.of_nat j) p) (seq 0 n).
Proof.
  induction n as [|n IH]; intros k p cf tr fuel Hk Hp Hmax Hfuel.
  - destruct fuel as [|fuel]; [lia|].
    assert (k = p) by lia. subst k.
    exists tr. split.
    + rewrite play_period_unroll. tone_simpl.
      rewrite Z.ltb_irrefl. reflexivity.
    + cbn [seq map]. now rewrite app_nil_r.
  - destruct fuel as [|[|[|[|fuel]]]]; try lia.
    destruct (IH (k + 1) p cf
                (Rd cf :: Sample (to_uint32 cf) (dac_sample k p) :: tr) fuel)
      as [tr' [Hrun Hout]]; try lia.
    exists tr'. split.
    + rewrite <- Hrun.
      rewrite !play_period_unroll. tone_simpl.
      assert (E : (k <? p) = true) by (apply Z.ltb_lt; lia).
      rewrite E. tone_simpl.
      rewrite Z.eqb_refl. tone_simpl.
      rewrite (to_uint32_small (k + 1)) by lia.
      reflexivity.
    + rewrite Hout. cbn [dac_out]. rewrite <- app_assoc. cbn [app].
      now rewrite shifted_samples.
Qed.

Lemma sine_cycle_shift (p : Z) :
  map (fun j => dac_sample (0 + Z.of_nat j) p) (seq 0 (Z.to_nat p)) =
  sine_cycle p.
Proof. unfold sine_cycle. apply map_ext. intros j. reflexivity. Qed.

(** piano2.ino: from the head of [while (true)], with [currentFrequency]
    holding [f > 0] throughout, the task comes back to the head of the loop
    after writing exactly the samples of one cycle. *)
Lemma piano2_period (s : sys tone) (f : Z) (fuel : nat) :
  0 < f <= INT_MAX ->
  currentFrequency s = f ->
  pc (task s) = L_check ->
  (4 * Z.to_nat (sampling_rate / f) + 4 <= fuel)%nat ->
  exists s',
    play_period fuel s = Some s' /\
    currentFrequency s' = f /\
    frequency (task s') = f /\
    dac_out (trace s') = dac_out (trace s) ++ sine_cycle (sampling_rate / f).
Proof.
  intros Hf Hcf Hpc Hfuel.
  destruct s as [cf [fr ps i l] tr]. cbn [currentFrequency task pc] in *.
  subst cf l.
  assert (Hu : to_uint32 f = f)
    by (apply to_uint32_small; unfold INT_MAX in Hf; lia).
  pose proof (period_bounds f (proj1 Hf)) as Hp.
  set (p := sampling_rate / f) in *.
  destruct fuel as [|[|[|fuel]]]; try lia.
  destruct (fr =? f) eqn:Efr.
  - (* the local copy is current: straight to the branch *)
    destruct (loop_uninterrupted (Z.to_nat p) 0 p f (Rd f :: tr) (S fuel))
      as [tr' [Hrun Hout]]; try lia.
    rewrite Hu in Hrun.
    exists (mkSys f (mkTone f p p L_check) tr').
    split; [|split; [reflexivity|split; [reflexivity|]]].
    + rewrite <- Hrun. rewrite 2!play_period_unroll. tone_simpl.
      rewrite Hu, Efr.
      tone_simpl.
      apply Z.eqb_eq in Efr. subst fr.
      assert (E : (0 <? f) = true) by (apply Z.ltb_lt; lia).
      rewrite E. reflexivity.
    + cbn [trace]. rewrite Hout, sine_cycle_shift. reflexivity.
  - (* the local copy is stale: it is refreshed first *)
    destruct (loop_uninterrupted (Z.to_nat p) 0 p f (Rd f :: Rd f :: tr) fuel)
      as [tr' [Hrun Hout]]; try lia.
    rewrite Hu in Hrun.
    exists (mkSys f (mkTone f p p L_check) tr').
    split; [|split; [reflexivity|split; [reflexivity|]]].
    + rewrite <- Hrun. rewrite 3!play_period_unroll. tone_simpl.
      rewrite Hu, Efr.
      tone_simpl.
      rewrite Hu.
      assert (E : (0 <? f) = true) by (apply Z.ltb_lt; lia).
      rewrite E. reflexivity.
    + cbn [trace]. rewrite Hout, sine_cycle_shift. reflexivity.
Qed.

(** Simplification of one step of the earlier sketch. *)
Ltac tone1_simpl :=
  repeat progress
    (unfold step1, Rev1.at_pc;
     cbn [sys_step Rev1.tone_step Rev1.pc task fst snd currentFrequency trace
          Rev1.loop_i Rev1.period Rev1.frequency app negb]).

Lemma loop_uninterrupted1 (n : nat) :
  forall (k p cf fr : Z) (tr : list event) (fuel : nat),
    0 <= k -> k + Z.of_nat n = p -> p < 4294967296 ->
    (3 * n + 1 <= fuel)%nat ->
    exists tr',
      play_period1 fuel (mkSys cf (Rev1.mkTone fr p k Rev1.L_for) tr) =
        Some (mkSys cf (Rev1.mkTone fr p p Rev1.L_check) tr') /\
      dac_out tr' =
        dac_out tr ++ map (fun j => dac_sample (k + Z.of_nat j) p) (seq 0 n) /\
      samples_of fr tr' = (samples_of fr tr + n)%nat.
Proof.
  induction n as [|n IH]; intros k p cf fr tr fuel Hk Hp Hmax Hfuel.
  - destruct fuel as [|fuel]; [lia|].
    assert (k = p) by lia. subst k.
    exists tr. split; [|split].
    + rewrite play_period1_unroll. tone1_simpl.
      rewrite (to_uint32_small p) by lia.
      rewrite Z.ltb_irrefl. reflexivity.
    + cbn [seq map]. now rewrite app_nil_r.
    + lia.
  - destruct fuel as [|[|[|fuel]]]; try lia.
    destruct (IH (k + 1) p cf fr (Sample fr (dac_sample k p) :: tr) fuel)
      as [tr' [Hrun [Hout Hcount]]]; try lia.
    exists tr'. split; [|split].
    + rewrite <- Hrun.
      rewrite !play_period1_unroll. tone1_simpl.
      rewrite (to_uint32_small k) by lia.
      assert (E : (k <? p) = true) by (apply Z.ltb_lt; lia).
      rewrite E. tone1_simpl.
      reflexivity.
    + rewrite Hout. cbn [dac_out]. rewrite <- app_assoc. cbn [app].
      now rewrite shifted_samples.
    + rewrite Hcount. cbn [samples_of]. rewrite Z.eqb_refl. lia.
Qed.

(** The earlier sketch: the same, from the head of its [while (true)]. *)
Lemma rev1_period (s : sys Rev1.tone) (f : Z) (fuel : nat) :
  0 < f <= INT_MAX ->
  currentFrequency s = f ->
  Rev1.pc (task s) = Rev1.L_check ->
  (4 * Z.to_nat (sampling_rate / f) + 4 <= fuel)%nat ->
  exists s',
    play_period1 fuel s = Some s' /\
    currentFrequency s' = f /\
    Rev1.frequency (task s') = f /\
    dac_out (trace s') = dac_out (trace s) ++ sine_cycle (sampling_rate / f).
Proof.
  intros Hf Hcf Hpc Hfuel.
  destruct s as [cf [fr ps i l] tr].
  cbn [currentFrequency task Rev1.pc] in *. subst cf l.
  assert (Hu : to_uint32 f = f)
    by (apply to_uint32_small; unfold INT_MAX in Hf; lia).
  pose proof (period_bounds f (proj1 Hf)) as Hp.
  set (p := sampling_rate / f) in *.
  destruct fuel as [|[|[|fuel]]]; try lia.
  destruct (loop_uninterrupted1 (Z.to_nat p) 0 p f f (Rd f :: Rd f :: tr) fuel)
    as [tr' [Hrun [Hout _]]]; try lia.
  exists (mkSys f (Rev1.mkTone f p p Rev1.L_check) tr').
  split; [|split; [reflexivity|split; [reflexivity|]]].
  - rewrite <- Hrun. rewrite 3!play_period1_unroll. tone1_simpl.
    assert (E : (f =? 0) = false) by (apply Z.eqb_neq; lia).
    rewrite E. tone1_simpl. rewrite Hu, E. reflexivity.
  - cbn [trace]. rewrite Hout, sine_cycle_shift. reflexivity.
Qed.

(** ** The samples of one cycle *)

Lemma sine_cycle_length (p : Z) :
  List.length (sine_cycle p) = Z.to_nat p.
Proof. unfold sine_cycle. now rewrite length_map, length_seq. Qed.

Lemma sine_cycle_range (p : Z) :
  Forall (fun v => 0 <= v <= 255) (sine_cycle p).
Proof.
  unfold sine_cycle. apply Forall_forall. intros v Hv.
  apply in_map_iff in Hv. destruct Hv as [k [<- _]].
  apply dac_sample_range.
Qed.

Lemma sine_cycle_nth (p : Z) (k : nat) :
  (k < Z.to_nat p)%nat ->
  nth k (sine_cycle p) 0 = dac_sample (Z.of_nat k) p.
Proof.
  intros Hk. unfold sine_cycle.
  rewrite (nth_indep _ 0 (dac_sample (Z.of_nat 0) p))
    by (now rewrite length_map, length_seq).
  rewrite (map_nth (fun j => dac_sample (Z.of_nat j) p)).
  now rewrite seq_nth.
Qed.

Lemma sine_cycle_first (p : Z) : 1 <= p -> nth 0 (sine_cycle p) 0 = 127.
Proof.
  intros Hp. rewrite sine_cycle_nth by lia. apply dac_sample_0.
Qed.

(** ** Claims about the tone generator *)

(** C1, as amended: for a frequency [f > 0] held by [currentFrequency]
    throughout, one pass of the loop of the tone task (of either sketch)
    returns to the head of the loop having written exactly
    [sampling_rate / f] samples; every sample lies in [0, 255]; sample [k] is
    the truncation to 8 bits of the [float] nearest to
    [127.5 + 127.5 * sin(2*PI*k / period)]; and the first sample of a period
    is 127, the truncation of 127.5. *)
Theorem uninterrupted_period_is_sine_cycle (f : Z) (fuel : nat) :
  0 < f <= INT_MAX ->
  (4 * Z.to_nat (sampling_rate / f) + 4 <= fuel)%nat ->
  (forall s : sys tone,
     currentFrequency s = f -> pc (task s) = L_check ->
     exists s',
       play_period fuel s = Some s' /\
       dac_out (trace s') =
         dac_out (trace s) ++ sine_cycle (sampling_rate / f)) /\
  (forall s : sys Rev1.tone,
     currentFrequency s = f -> Rev1.pc (task s) = Rev1.L_check ->
     exists s',
       play_period1 fuel s = Some s' /\
       dac_out (trace s') =
         dac_out (trace s) ++ sine_cycle (sampling_rate / f)) /\
  List.length (sine_cycle (sampling_rate / f)) =
    Z.to_nat (sampling_rate / f) /\
  Forall (fun v => 0 <= v <= 255) (sine_cycle (sampling_rate / f)) /\
  (forall k : nat,
     (k < Z.to_nat (sampling_rate / f))%nat ->
     nth k (sine_cycle (sampling_rate / f)) 0 =
       to_uint8 (trunc (to_float32
                          (127.5 + 127.5 *
                             sin (2 * PI * IZR (Z.of_nat k) /
                                  IZR (sampling_rate / f)))%R))) /\
  (1 <= sampling_rate / f ->
   nth 0 (sine_cycle (sampling_rate / f)) 0 = 127).
Proof.
  intros Hf Hfuel. repeat split.
  - intros s Hcf Hpc.
    destruct (piano2_period s f fuel Hf Hcf Hpc Hfuel) as [s' [H1 [_ [_ H2]]]].
    now exists s'.
  - intros s Hcf Hpc.
    destruct (rev1_period s f fuel Hf Hcf Hpc Hfuel) as [s' [H1 [_ [_ H2]]]].
    now exists s'.
  - apply sine_cycle_length.
  - apply sine_cycle_range.
  - intros k Hk. now rewrite sine_cycle_nth.
  - apply sine_cycle_first.
Qed.

Lemma uninterrupted_period_is_sine_cycle_witness :
  0 < 262 <= INT_MAX /\
  (4 * Z.to_nat (sampling_rate / 262) + 4 <= 308)%nat /\
  List.length (sine_cycle (sampling_rate / 262)) = 76%nat.
Proof.
  assert (H1 : 0 < 262 <= INT_MAX) by (unfold INT_MAX; lia).
  assert (H2 : (4 * Z.to_nat (sampling_rate / 262) + 4 <= 308)%nat)
    by (apply Nat.leb_le; reflexivity).
  split; [exact H1|]. split; [exact H2|].
  exact (proj1 (proj2 (proj2
           (uninterrupted_period_is_sine_cycle 262 308 H1 H2)))).
Defined.

(** C1 as stated fails: with "C" (262 Hz) held, the period has 76 samples
    and its first sample is 127, not the midpoint 128 written for silence. *)
Lemma first_sample_is_not_midpoint :
  exists s',
    play_period 308 (mkSys 262 tone_init []) = Some s' /\
    List.length (dac_out (trace s')) = 76%nat /\
    nth 0 (dac_out (trace s')) 0 = 127 /\
    nth 0 (dac_out (trace s')) 0 <> MIDPOINT.
Proof.
  destruct (piano2_period (mkSys 262 tone_init []) 262 308)
    as [s' [Hrun [_ [_ Hout]]]].
  - unfold INT_MAX; lia.
  - reflexivity.
  - reflexivity.
  - apply Nat.leb_le; reflexivity.
  - exists s'. cbn [trace dac_out app] in Hout. rewrite Hout.
    assert (Hfirst : nth 0 (sine_cycle (sampling_rate / 262)) 0 = 127).
    { apply sine_cycle_first. apply Z.leb_le. reflexivity. }
    split; [exact Hrun|]. split; [now rewrite sine_cycle_length|].
    split; [exact Hfirst|].
    rewrite Hfirst. unfold MIDPOINT. lia.
Qed.

(** ** The first sample of a note cannot be pre-empted *)

Lemma note_period_range :
  Forall (fun f => 38 <= sampling_rate / f <= 76) notes.
Proof.
  unfold notes, sampling_rate.
  repeat (apply Forall_cons; [split; apply Z.leb_le; reflexivity|]).
  apply Forall_nil.
Qed.

Lemma note_period (f : Z) :
  In f notes -> 0 < f <= INT_MAX /\ 38 <= sampling_rate / f <= 76.
Proof.
  intros Hin. split.
  - unfold notes in Hin. cbn [In] in Hin. unfold INT_MAX.
    repeat (destruct Hin as [<-|Hin]; [lia|]). contradiction.
  - pose proof note_period_range as H.
    rewrite Forall_forall in H. now apply H.
Qed.






(** *** The sounding branch comes back to the head of the loop *)











(** ** Silence *)

Lemma to_uint32_pos_nonzero (c : Z) : 0 < to_uint32 c -> c <> 0.
Proof. intros H ->. unfold to_uint32 in H. cbn in H. lia. Qed.

Lemma silent_inv_step (a : action) (s : sys tone) :
  silent_inv s -> silent_inv (step2 a s).
Proof.
  destruct a as [|label v]; [|exact (fun H => H)].
  destruct s as [cf [fr ps i l] tr]. unfold silent_inv.
  cbn [task trace pc frequency]. intros [Hq Hpc].
  destruct l; tone_simpl.
  - (* L_check *)
    destruct (fr =? to_uint32 cf) eqn:E; tone_simpl; cbn [quiet_after_zero].
    + split; [exact Hq|]. intros Hpos. cbn [last_read].
      apply Z.eqb_eq in E. subst fr.
      apply to_uint32_pos_nonzero in Hpos. congruence.
    + now split.
  - (* L_latch *)
    cbn [quiet_after_zero last_read]. split; [exact Hq|].
    intros Hpos. apply to_uint32_pos_nonzero in Hpos. congruence.
  - (* L_branch *)
    destruct (0 <? fr) eqn:E; tone_simpl.
    + apply Z.ltb_lt in E. split; [exact Hq|]. split; [exact E|auto].
    + now split.
  - (* L_for *)
    destruct (i <? ps); tone_simpl; now split.
  - (* L_write *)
    destruct Hpc as [Hpos Hlr]. cbn [quiet_after_zero last_read].
    split; [|exact Hpos].
    destruct (last_read tr) as [[| |]|]; try exact Hq. congruence.
  - (* L_recheck *)
    destruct (fr =? to_uint32 cf) eqn:E; tone_simpl;
      cbn [quiet_after_zero last_read].
    + split; [exact Hq|]. split; [exact Hpc|].
      apply Z.eqb_eq in E. subst fr.
      apply to_uint32_pos_nonzero in Hpc. congruence.
    + now split.
  - (* L_delay *)
    now split.
  - (* L_silence *)
    cbn [quiet_after_zero]. rewrite Hq. now split.
Qed.

Lemma silent_inv1_step (a : action) (s : sys Rev1.tone) :
  silent_inv1 s -> silent_inv1 (step1 a s).
Proof.
  destruct a as [|label v]; [|exact (fun H => H)].
  destruct s as [cf [fr ps i l] tr]. unfold silent_inv1.
  cbn [task trace Rev1.pc Rev1.frequency]. intros [Hq Hpc].
  destruct l; tone1_simpl.
  - (* L_check *)
    destruct (cf =? 0); tone1_simpl; cbn [quiet_after_zero]; now split.
  - (* L_latch *)
    cbn [quiet_after_zero last_read]. now split.
  - (* L_period *)
    destruct (to_uint32 fr =? 0) eqn:E; tone1_simpl; [now split|].
    split; [exact Hq|]. rewrite Hpc. intros [= ->].
    discriminate E.
  - (* L_for *)
    destruct (to_uint32 i <? ps); tone1_simpl; now split.
  - (* L_write *)
    cbn [quiet_after_zero last_read]. split; [|exact Hpc].
    destruct (last_read tr) as [[| |]|]; try exact Hq. congruence.
  - (* L_delay *)
    now split.
  - (* L_silence *)
    cbn [quiet_after_zero]. rewrite Hq. now split.
  - (* L_fault *)
    now split.
Qed.

Lemma silent_inv_run (evs : list action) :
  forall s, silent_inv s -> silent_inv (run2 evs s).
Proof.
  induction evs as [|a evs IH]; intros s Hs; [exact Hs|].
  unfold run2 in *. cbn [run]. apply IH. now apply silent_inv_step.
Qed.

Lemma silent_inv1_run (evs : list action) :
  forall s, silent_inv1 s -> silent_inv1 (run1 evs s).
Proof.
  induction evs as [|a evs IH]; intros s Hs; [exact Hs|].
  unfold run1 in *. cbn [run]. apply IH. now apply silent_inv1_step.
Qed.

(** C8: in every run of either sketch, a DAC write that follows a read of
    zero from [currentFrequency], with no read of a nonzero value in
    between, is the midpoint 128; and from the head of the loop with
    [currentFrequency] at zero the next write is that midpoint. *)
Theorem silence_writes_midpoint (evs : list action) :
  quiet_after_zero (trace (run2 evs boot)) = true /\
  quiet_after_zero (trace (run1 evs boot1)) = true /\
  (forall s : sys tone,
     pc (task s) = L_check -> currentFrequency s = 0 ->
     dac_out (trace (ticks2 4 s)) = dac_out (trace s) ++ [MIDPOINT]) /\
  (forall s : sys Rev1.tone,
     Rev1.pc (task s) = Rev1.L_check -> currentFrequency s = 0 ->
     dac_out (trace (ticks1 2 s)) = dac_out (trace s) ++ [MIDPOINT]).
Proof.
  split; [|split; [|split]].
  - apply (silent_inv_run evs boot). now split.
  - apply (silent_inv1_run evs boot1). now split.
  - intros [cf [fr ps i l] tr]. cbn [task pc currentFrequency trace].
    intros -> ->. unfold ticks2, ticks. cbn [repeat run]. tone_simpl.
    change (to_uint32 0) with 0.
    destruct (fr =? 0) eqn:E; tone_simpl.
    + apply Z.eqb_eq in E. subst fr. cbn [Z.ltb Z.compare]. tone_simpl.
      cbn [Z.eqb]. tone_simpl. reflexivity.
    + change (to_uint32 0) with 0. cbn [Z.ltb Z.compare]. tone_simpl.
      reflexivity.
  - intros [cf [fr ps i l] tr]. cbn [task Rev1.pc currentFrequency trace].
    intros -> ->. unfold ticks1, ticks. cbn [repeat run]. tone1_simpl.
    cbn [Z.eqb]. tone1_simpl. reflexivity.
Qed.

(** The discipline is not vacuous: a waveform sample right after a read of
    zero breaks it. *)
Example quiet_after_zero_rejects :
  quiet_after_zero [Sample 262 127; Rd 0] = false.
Proof. reflexivity. Qed.

(** C7: a callback that stores the value [currentFrequency] already holds
    is invisible to the tone task: the run with it and the run without it end
    in the same state, with the same program point, loop index and trace. *)
Theorem same_value_write_is_invisible
  (pre post : list action) (label : string) (v : Z) :
  (forall s : sys tone,
     buttonCallback label v (currentFrequency (run2 pre s)) =
       currentFrequency (run2 pre s) ->
     run2 (pre ++ Key label v :: post) s = run2 (pre ++ post) s) /\
  (forall s : sys Rev1.tone,
     Rev1.buttonCallback label v (currentFrequency (run1 pre s)) =
       currentFrequency (run1 pre s) ->
     run1 (pre ++ Key label v :: post) s = run1 (pre ++ post) s).
Proof.
  split; intros s H.
  - unfold run2 in *. rewrite !run_app. cbn [run].
    now rewrite key_same_value.
  - unfold run1 in *. rewrite !run_app. cbn [run].
    now rewrite key_same_value.
Qed.

Lemma same_value_write_is_invisible_witness :
  buttonCallback "C" 1
    (currentFrequency (run2 [Key "C" 1; Tick; Tick; Tick; Tick; Tick] boot)) =
    currentFrequency (run2 [Key "C" 1; Tick; Tick; Tick; Tick; Tick] boot) /\
  run2 ([Key "C" 1; Tick; Tick; Tick; Tick; Tick] ++
        Key "C" 1 :: [Tick; Tick]) boot =
  run2 ([Key "C" 1; Tick; Tick; Tick; Tick; Tick] ++ [Tick; Tick]) boot.
Proof.
  assert (H : buttonCallback "C" 1
    (currentFrequency (run2 [Key "C" 1; Tick; Tick; Tick; Tick; Tick] boot)) =
    currentFrequency (run2 [Key "C" 1; Tick; Tick; Tick; Tick; Tick] boot))
    by reflexivity.
  split; [exact H|].
  exact (proj1 (same_value_write_is_invisible
                  [Key "C" 1; Tick; Tick; Tick; Tick; Tick] [Tick; Tick]
                  "C" 1) boot H).
Defined.

(** ** Changing the note in the middle of a period *)

(** piano2.ino: every write of the waveform loop is followed by a read of
    [currentFrequency]. *)
Lemma piano2_write_then_recheck (s : sys tone) :
  pc (task s) = L_write ->
  pc (task (step2 Tick s)) = L_recheck /\
  pc (task (step2 Tick (step2 Tick s))) <> L_write /\
  exists e, trace (step2 Tick (step2 Tick s)) =
              Rd (currentFrequency s) :: e :: trace s.
Proof.
  destruct s as [cf [fr ps i l] tr]. cbn [task pc]. intros ->.
  tone_simpl. split; [reflexivity|].
  destruct (fr =? to_uint32 cf); tone_simpl;
    (split; [discriminate|eexists; reflexivity]).
Qed.

(** piano2.ino: when that read finds a different frequency, the loop is left
    at once, with nothing more written. *)
Lemma piano2_recheck_aborts (s : sys tone) :
  pc (task s) = L_recheck ->
  frequency (task s) <> to_uint32 (currentFrequency s) ->
  pc (task (step2 Tick s)) = L_check /\
  dac_out (trace (step2 Tick s)) = dac_out (trace s).
Proof.
  destruct s as [cf [fr ps i l] tr]. cbn [task pc frequency currentFrequency].
  intros -> Hne. apply Z.eqb_neq in Hne. tone_simpl. rewrite Hne.
  tone_simpl. now split.
Qed.

Lemma old_budget_step (f0 : Z) (a : action) (s : sys tone) :
  to_uint32 (currentFrequency s) <> f0 ->
  (samples_of f0 (trace (step2 a s)) + old_budget f0 (task (step2 a s)) <=
   samples_of f0 (trace s) + old_budget f0 (task s))%nat.
Proof.
  intros Hne. destruct a as [|label v]; [|apply Nat.le_refl].
  destruct s as [cf [fr ps i l] tr]. cbn [currentFrequency] in Hne.
  unfold old_budget.
  destruct l; tone_simpl.
  - (* L_check *)
    destruct (fr =? to_uint32 cf) eqn:E; tone_simpl; cbn [samples_of].
    + apply Z.eqb_eq in E. subst fr.
      apply Z.eqb_neq in Hne. rewrite Hne. lia.
    + destruct (fr =? f0); lia.
  - (* L_latch *)
    cbn [samples_of]. apply Z.eqb_neq in Hne. rewrite Hne.
    destruct (fr =? f0); lia.
  - (* L_branch *)
    destruct (0 <? fr); tone_simpl; destruct (fr =? f0); lia.
  - (* L_for *)
    destruct (i <? ps); tone_simpl; destruct (fr =? f0); lia.
  - (* L_write *)
    cbn [samples_of]. destruct (fr =? f0); lia.
  - (* L_recheck *)
    destruct (fr =? to_uint32 cf) eqn:E; tone_simpl; cbn [samples_of].
    + apply Z.eqb_eq in E. subst fr.
      apply Z.eqb_neq in Hne. rewrite Hne. lia.
    + destruct (fr =? f0); lia.
  - (* L_delay *)
    destruct (fr =? f0); lia.
  - (* L_silence *)
    cbn [samples_of]. destruct (fr =? f0); lia.
Qed.

Lemma old_budget_run (f0 : Z) (evs : list action) :
  forall s : sys tone,
    stays_changed f0 evs s ->
    (samples_of f0 (trace (run2 evs s)) + old_budget f0 (task (run2 evs s)) <=
     samples_of f0 (trace s) + old_budget f0 (task s))%nat.
Proof.
  induction evs as [|a evs IH]; intros s Hs.
  - apply Nat.le_refl.
  - destruct Hs as [Hne Hrest]. unfold run2 in *. cbn [run].
    pose proof (IH _ Hrest) as H1.
    pose proof (old_budget_step f0 a s Hne) as H2.
    unfold step2 in *. lia.
Qed.

(** piano2.ino: once [currentFrequency] has left the frequency [f0] and as
    long as it does not return to it, the task writes at most one more
    sample of the waveform of [f0], in every schedule. *)
Lemma piano2_one_stale_sample (f0 : Z) (evs : list action) (s : sys tone) :
  stays_changed f0 evs s ->
  (samples_of f0 (trace (run2 evs s)) <= samples_of f0 (trace s) + 1)%nat.
Proof.
  intros Hs. pose proof (old_budget_run f0 evs s Hs) as H.
  assert (Hb : (old_budget f0 (task s) <= 1)%nat).
  { unfold old_budget. destruct (frequency (task s) =? f0); [|lia].
    destruct (pc (task s)); lia. }
  lia.
Qed.

(** The state of the earlier sketch once "C" has been pressed, the task has
    entered its waveform loop for 262 Hz, and the key has been released. *)
Lemma rev1_released_in_period :
  run1 [Key "C" 1; Tick; Tick; Tick; Key "C" 0] boot1 =
  mkSys 0 (Rev1.mkTone 262 76 0 Rev1.L_for) [Rd 262; Rd 262].
Proof. reflexivity. Qed.

(** C2 fails for the earlier sketch: its waveform loop never reads
    [currentFrequency].  After "C" is released at the start of a period, the
    task still writes all 76 samples of the 262 Hz waveform before it is back
    at the head of its loop. *)
Theorem rev1_finishes_period_after_release :
  exists s',
    play_period1 229
      (run1 [Key "C" 1; Tick; Tick; Tick; Key "C" 0] boot1) = Some s' /\
    currentFrequency s' = 0 /\
    samples_of 262 (trace s') = 76%nat /\
    dac_out (trace s') = sine_cycle 76.
Proof.
  rewrite rev1_released_in_period.
  destruct (loop_uninterrupted1 76 0 76 0 262 [Rd 262; Rd 262] 229)
    as [tr' [Hrun [Hout Hcount]]]; try lia.
  eexists. split; [exact Hrun|].
  cbn [currentFrequency trace]. split; [reflexivity|].
  split; [exact Hcount|].
  rewrite Hout. cbn [dac_out app]. apply (sine_cycle_shift 76).
Qed.

(** The same schedule on piano2.ino: the release is seen at the first
    re-check and only one sample of the 262 Hz waveform is written. *)
Lemma piano2_aborts_after_release (n : nat) :
  (samples_of 262
     (trace (run2 ([Key "C" 1; Tick; Tick; Tick; Key "C" 0] ++ repeat Tick n)
               boot)) <= 1)%nat.
Proof.
  unfold run2. rewrite run_app.
  apply (piano2_one_stale_sample 262 (repeat Tick n)).
  set (s := run tone_step buttonCallback _ boot).
  assert (Hcf : currentFrequency s = 0) by reflexivity.
  clearbody s. revert s Hcf.
  induction n as [|n IH]; intros s Hcf; cbn [repeat stays_changed].
  - split; [|exact I]. rewrite Hcf. discriminate.
  - split; [rewrite Hcf; discriminate|]. apply IH. exact Hcf.
Qed.

(** ** Further properties of the tone task *)

Lemma dac_out_app (a b : list event) :
  dac_out (a ++ b) = dac_out b ++ dac_out a.
Proof.
  induction a as [|e a IH]; cbn [app dac_out].
  - now rewrite app_nil_r.
  - destruct e; rewrite ?IH, ?app_assoc; reflexivity.
Qed.




Section TraceInvariant.

Variable T : Type.
Variable tstep : Z -> T -> T * list event.
Variable callback : string -> Z -> Z -> Z.
Variable P : event -> Prop.
Hypothesis tstep_emits : forall cf t, Forall P (snd (tstep cf t)).


End TraceInvariant.


Lemma play_period_head (fuel : nat) :
  forall s s' : sys tone,
    play_period fuel s = Some s' -> pc (task s') = L_check.
Proof.
  induction fuel as [|fuel IH]; intros s s' H; [discriminate|].
  rewrite play_period_unroll in H.
  destruct (pc (task (step2 Tick s))) eqn:E;
    try (now apply IH in H).
  injection H as <-. exact E.
Qed.

(** X2: with [currentFrequency] held at [f > 0], [k] passes of the loop of
    piano2.ino write the same cycle [k] times, with no other write between
    two cycles. *)
Theorem steady_tone_repeats_cycle (f : Z) (fuel k : nat) (s : sys tone) :
  0 < f <= INT_MAX ->
  (4 * Z.to_nat (sampling_rate / f) + 4 <= fuel)%nat ->
  currentFrequency s = f ->
  pc (task s) = L_check ->
  exists s',
    play_periods k fuel s = Some s' /\
    dac_out (trace s') =
      dac_out (trace s) ++ List.concat (repeat (sine_cycle (sampling_rate / f)) k).
Proof.
  intros Hf Hfuel. revert s.
  induction k as [|k IH]; intros s Hcf Hpc.
  - exists s. split; [reflexivity|]. cbn [repeat List.concat].
    now rewrite app_nil_r.
  - destruct (piano2_period s f fuel Hf Hcf Hpc Hfuel)
      as [s1 [Hrun [Hcf1 [_ Hout1]]]].
    destruct (IH s1 Hcf1 (play_period_head fuel s s1 Hrun))
      as [s' [Hrest Hout]].
    exists s'. split.
    + cbn [play_periods]. now rewrite Hrun.
    + rewrite Hout, Hout1. cbn [repeat List.concat]. now rewrite app_assoc.
Qed.

Lemma steady_tone_repeats_cycle_witness :
  0 < 440 <= INT_MAX /\
  exists s',
    play_periods 3 200 (mkSys 440 tone_init []) = Some s' /\
    dac_out (trace s') =
      [] ++ List.concat (repeat (sine_cycle (sampling_rate / 440)) 3).
Proof.
  assert (H1 : 0 < 440 <= INT_MAX) by (unfold INT_MAX; lia).
  split; [exact H1|].
  apply (steady_tone_repeats_cycle 440 200 3 (mkSys 440 tone_init []) H1).
  - apply Nat.leb_le. reflexivity.
  - reflexivity.
  - reflexivity.
Defined.

(** *** Frequencies above the sampling rate *)

Lemma period_zero (u : Z) : 20000 < u -> sampling_rate / u = 0.
Proof. intros H. unfold sampling_rate. apply Z.div_small. lia. Qed.

Lemma mute_inv_tick (f : Z) (s : sys tone) :
  20000 < to_uint32 f ->
  mute_inv f s ->
  mute_inv f (step2 Tick s) /\
  dac_out (trace (step2 Tick s)) = dac_out (trace s).
Proof.
  intros Hf. destruct s as [cf [fr ps i l] tr]. unfold mute_inv.
  cbn [currentFrequency task pc frequency period_samples loop_i].
  intros [-> Hpc].
  destruct l; try contradiction; tone_simpl.
  - (* L_check *)
    destruct (fr =? to_uint32 f) eqn:E; tone_simpl; cbn [dac_out].
    + apply Z.eqb_eq in E. now repeat split.
    + now repeat split.
  - (* L_latch *)
    cbn [dac_out]. now repeat split.
  - (* L_branch *)
    subst fr.
    assert (E : (0 <? to_uint32 f) = true) by (apply Z.ltb_lt; lia).
    rewrite E. tone_simpl. rewrite period_zero by exact Hf.
    now repeat split.
  - (* L_for *)
    destruct Hpc as [-> ->]. cbn [Z.ltb Z.compare]. tone_simpl.
    now repeat split.
Qed.

Lemma mute_inv1_tick (f : Z) (s : sys Rev1.tone) :
  20000 < to_uint32 f ->
  mute_inv1 f s ->
  mute_inv1 f (step1 Tick s) /\
  dac_out (trace (step1 Tick s)) = dac_out (trace s).
Proof.
  intros Hf. destruct s as [cf [fr ps i l] tr]. unfold mute_inv1.
  cbn [currentFrequency task Rev1.pc Rev1.frequency Rev1.period Rev1.loop_i].
  intros [-> Hpc].
  assert (Hnz : (f =? 0) = false).
  { apply Z.eqb_neq. intros ->. unfold to_uint32 in Hf. cbn in Hf. lia. }
  destruct l; try contradiction; tone1_simpl.
  - (* L_check *)
    rewrite Hnz. tone1_simpl. cbn [dac_out]. now repeat split.
  - (* L_latch *)
    cbn [dac_out]. now repeat split.
  - (* L_period *)
    subst fr.
    assert (E : (to_uint32 f =? 0) = false) by (apply Z.eqb_neq; lia).
    rewrite E. tone1_simpl. rewrite period_zero by exact Hf.
    now repeat split.
  - (* L_for *)
    destruct Hpc as [-> ->]. change (to_uint32 0) with 0.
    cbn [Z.ltb Z.compare]. tone1_simpl. now repeat split.
Qed.

(** X3: when [currentFrequency] holds a value that, as [uint32_t], exceeds
    the sampling rate, the period has zero samples: from the head of the
    loop the task of either sketch spins without ever writing to the DAC,
    not even the midpoint. *)
Theorem above_sampling_rate_is_mute (f : Z) (n : nat) :
  20000 < to_uint32 f ->
  (forall s : sys tone,
     currentFrequency s = f -> pc (task s) = L_check ->
     dac_out (trace (ticks2 n s)) = dac_out (trace s)) /\
  (forall s : sys Rev1.tone,
     currentFrequency s = f -> Rev1.pc (task s) = Rev1.L_check ->
     dac_out (trace (ticks1 n s)) = dac_out (trace s)).
Proof.
  intros Hf. split.
  - intros s Hcf Hpc.
    assert (Hinv : mute_inv f s) by (unfold mute_inv; now rewrite Hpc).
    clear Hcf Hpc. revert s Hinv.
    induction n as [|n IH]; intros s Hinv; [reflexivity|].
    destruct (mute_inv_tick f s Hf Hinv) as [Hnext Hout].
    change (dac_out (trace (ticks2 n (step2 Tick s))) = dac_out (trace s)).
    rewrite (IH _ Hnext). exact Hout.
  - intros s Hcf Hpc.
    assert (Hinv : mute_inv1 f s) by (unfold mute_inv1; now rewrite Hpc).
    clear Hcf Hpc. revert s Hinv.
    induction n as [|n IH]; intros s Hinv; [reflexivity|].
    destruct (mute_inv1_tick f s Hf Hinv) as [Hnext Hout].
    change (dac_out (trace (ticks1 n (step1 Tick s))) = dac_out (trace s)).
    rewrite (IH _ Hnext). exact Hout.
Qed.

Lemma above_sampling_rate_is_mute_witness :
  20000 < to_uint32 20001 /\
  dac_out (trace (ticks2 50 (mkSys 20001 tone_init []))) = [].
Proof.
  assert (H : 20000 < to_uint32 20001) by (apply Z.ltb_lt; reflexivity).
  split; [exact H|].
  exact (proj1 (above_sampling_rate_is_mute 20001 50 H)
           (mkSys 20001 tone_init []) eq_refl eq_refl).
Defined.

(** *** Changing the note *)

(** X4: piano2.ino, when the re-check after a write finds a new frequency
    [g] that yields at least one sample: six task steps later the first
    sample of the waveform of [g], the one with index 0, has been written,
    and nothing was written in between (no midpoint separates the notes). *)
Theorem note_switch_starts_new_period (g : Z) (s : sys tone) :
  0 < g <= 20000 ->
  pc (task s) = L_recheck ->
  currentFrequency s = g ->
  frequency (task s) <> g ->
  trace (ticks2 6 s) =
    Sample g (dac_sample 0 (sampling_rate / g)) ::
    Rd g :: Rd g :: Rd g :: trace s.
Proof.
  intros Hg. destruct s as [cf [fr ps i l] tr].
  cbn [task pc currentFrequency frequency trace]. intros -> -> Hne.
  assert (Hu : to_uint32 g = g) by (apply to_uint32_small; lia).
  assert (E : (fr =? g) = false) by now apply Z.eqb_neq.
  assert (Ep : (0 <? g) = true) by (apply Z.ltb_lt; lia).
  assert (El : (0 <? sampling_rate / g) = true).
  { apply Z.ltb_lt. unfold sampling_rate.
    apply Z.div_str_pos. lia. }
  unfold ticks2, ticks. cbn [repeat run]. tone_simpl.
  rewrite Hu, E. tone_simpl. rewrite Hu, E. tone_simpl.
  rewrite Hu, Ep. tone_simpl. rewrite El. tone_simpl.
  reflexivity.
Qed.

Lemma note_switch_starts_new_period_witness :
  0 < 392 <= 20000 /\
  trace (ticks2 6 (mkSys 392 (mkTone 262 76 10 L_recheck) [])) =
    [Sample 392 (dac_sample 0 (sampling_rate / 392));
     Rd 392; Rd 392; Rd 392].
Proof.
  assert (H : 0 < 392 <= 20000) by lia.
  split; [exact H|].
  apply (note_switch_starts_new_period 392
           (mkSys 392 (mkTone 262 76 10 L_recheck) []) H).
  - reflexivity.
  - reflexivity.
  - cbn. lia.
Defined.

(** X5: piano2.ino, when the re-check after a write finds
    [currentFrequency] at 0 while a note is playing: five task steps later
    the midpoint 128 has been written and nothing else. *)
Theorem release_falls_back_to_midpoint (s : sys tone) :
  pc (task s) = L_recheck ->
  currentFrequency s = 0 ->
  frequency (task s) <> 0 ->
  trace (ticks2 5 s) = Silence 128 :: Rd 0 :: Rd 0 :: Rd 0 :: trace s.
Proof.
  destruct s as [cf [fr ps i l] tr].
  cbn [task pc currentFrequency frequency trace]. intros -> -> Hne.
  assert (E : (fr =? 0) = false) by now apply Z.eqb_neq.
  unfold ticks2, ticks. cbn [repeat run]. tone_simpl.
  change (to_uint32 0) with 0. rewrite E. tone_simpl.
  change (to_uint32 0) with 0. rewrite E. tone_simpl.
  change (to_uint32 0) with 0. cbn [Z.ltb Z.compare]. tone_simpl.
  reflexivity.
Qed.

Lemma release_falls_back_to_midpoint_witness :
  262 <> 0 /\
  trace (ticks2 5 (mkSys 0 (mkTone 262 76 10 L_recheck) [])) =
    [Silence 128; Rd 0; Rd 0; Rd 0].
Proof.
  assert (H : 262 <> 0) by lia.
  split; [exact H|].
  exact (release_falls_back_to_midpoint
           (mkSys 0 (mkTone 262 76 10 L_recheck) []) eq_refl eq_refl H).
Defined.

(** *** The task polls between writes *)

Lemma polled_cons (x e : event) (tr : list event) :
  polled (x :: e :: tr) = negb (is_write x && is_write e) && polled (e :: tr).
Proof. reflexivity. Qed.

Lemma polled_read (v : Z) (tr : list event) :
  polled tr = true -> polled (Rd v :: tr) = true.
Proof. destruct tr as [|e tr]; [reflexivity|]. now rewrite polled_cons. Qed.

Lemma polled_write (x : event) (tr : list event) :
  newest_is_write tr = false -> polled tr = true -> polled (x :: tr) = true.
Proof.
  destruct tr as [|e tr]; [reflexivity|].
  cbn [newest_is_write]. intros He Hp.
  rewrite polled_cons, He, Hp. now rewrite andb_false_r.
Qed.

Lemma poll_inv_step (a : action) (s : sys tone) :
  poll_inv s -> poll_inv (step2 a s).
Proof.
  destruct a as [|label v]; [|exact (fun H => H)].
  destruct s as [cf [fr ps i l] tr]. unfold poll_inv.
  cbn [task trace pc]. intros [Hp Hpc].
  destruct l; tone_simpl.
  - (* L_check *)
    destruct (fr =? to_uint32 cf); tone_simpl;
      (split; [now apply polled_read|auto]).
  - (* L_latch *)
    split; [now apply polled_read|auto].
  - (* L_branch *)
    destruct (0 <? fr); tone_simpl; now split.
  - (* L_for *)
    destruct (i <? ps); tone_simpl; now split.
  - (* L_write *)
    split; [now apply polled_write|exact I].
  - (* L_recheck *)
    destruct (fr =? to_uint32 cf); tone_simpl;
      (split; [now apply polled_read|auto]).
  - (* L_delay *)
    now split.
  - (* L_silence *)
    split; [now apply polled_write|exact I].
Qed.

(** X6: in every run of piano2.ino the task reads [currentFrequency]
    between any two writes to the DAC: the trace never has two writes next
    to each other.  The earlier sketch does write back to back. *)
Theorem piano2_polls_between_writes (evs : list action) :
  polled (trace (run2 evs boot)) = true /\
  polled (trace (run1 [Key "C" 1; Tick; Tick; Tick; Tick; Tick; Tick;
                       Tick; Tick; Tick] boot1)) = false.
Proof.
  split; [|reflexivity].
  assert (H : forall s, poll_inv s -> poll_inv (run2 evs s)).
  { induction evs as [|a evs IH]; intros s Hs; [exact Hs|].
    unfold run2 in *. cbn [run]. apply IH. now apply poll_inv_step. }
  apply (H boot). now split.
Qed.

(** *** The DAC keeps being written *)

Lemma note_or_zero_uint32 (c : Z) :
  note_or_zero c -> note_or_zero (to_uint32 c).
Proof.
  intros [->|Hin]; [now left|].
  destruct (note_period c Hin) as [Hc _].
  rewrite to_uint32_small by (unfold INT_MAX in Hc; lia). now right.
Qed.

Lemma live_inv_step (a : action) (s : sys tone) :
  live_inv s -> live_inv (step2 a s).
Proof.
  unfold live_inv. destruct a as [|label v].
  - destruct s as [cf [fr ps i l] tr].
    cbn [currentFrequency task pc frequency]. intros [Hcf Hpc].
    destruct l; tone_simpl.
    + (* L_check *)
      destruct (fr =? to_uint32 cf) eqn:E; tone_simpl; split; auto.
      apply Z.eqb_eq in E. subst fr. now apply note_or_zero_uint32.
    + (* L_latch *)
      split; [exact Hcf|now apply note_or_zero_uint32].
    + destruct (0 <? fr); tone_simpl; now split.
    + destruct (i <? ps); tone_simpl; now split.
    + now split.
    + destruct (fr =? to_uint32 cf); tone_simpl; now split.
    + now split.
    + now split.
  - intros [Hcf Hpc]. split; [|exact Hpc].
    unfold step2. cbn [sys_step currentFrequency].
    now apply buttonCallback_range.
Qed.

Lemma write_deadline_bounds (t : tone) :
  (1 <= write_deadline t <= 8)%nat.
Proof.
  unfold write_deadline.
  destruct (pc t);
    repeat match goal with
           | |- context [if ?b then _ else _] => destruct b
           end; lia.
Qed.

(** A task step either writes to the DAC or brings the next write closer. *)
Lemma write_deadline_tick (s : sys tone) :
  live_inv s ->
  List.length (dac_out (trace (step2 Tick s))) =
    S (List.length (dac_out (trace s))) \/
  (dac_out (trace (step2 Tick s)) = dac_out (trace s) /\
   (write_deadline (task (step2 Tick s)) < write_deadline (task s))%nat).
Proof.
  destruct s as [cf [fr ps i l] tr]. unfold live_inv, write_deadline.
  cbn [currentFrequency task pc frequency]. intros [Hcf Hpc].
  destruct l; tone_simpl.
  - (* L_check *)
    right. destruct (fr =? to_uint32 cf); tone_simpl; cbn [dac_out];
      split; auto; lia.
  - (* L_latch *)
    right. cbn [dac_out]. split; auto.
  - (* L_branch *)
    right. destruct (0 <? fr) eqn:E; tone_simpl; [|split; auto; lia].
    apply Z.ltb_lt in E. destruct Hpc as [->|Hin]; [lia|].
    destruct (note_period fr Hin) as [_ Hp].
    assert (El : (0 <? sampling_rate / fr) = true) by (apply Z.ltb_lt; lia).
    rewrite El. split; auto.
  - (* L_for *)
    right. destruct (i <? ps); tone_simpl; split; auto; lia.
  - (* L_write *)
    left. cbn [dac_out]. rewrite length_app. cbn [List.length]. lia.
  - (* L_recheck *)
    right. destruct (fr =? to_uint32 cf); tone_simpl; cbn [dac_out];
      split; auto; try lia.
    destruct (to_uint32 (i + 1) <? ps); lia.
  - (* L_delay *)
    right. split; auto. destruct (to_uint32 (i + 1) <? ps); lia.
  - (* L_silence *)
    left. cbn [dac_out]. rewrite length_app. cbn [List.length]. lia.
Qed.

Lemma run2_writes_mono (evs : list action) :
  forall s : sys tone,
    (List.length (dac_out (trace s)) <=
     List.length (dac_out (trace (run2 evs s))))%nat.
Proof.
  induction evs as [|a evs IH]; intros s; [apply Nat.le_refl|].
  unfold run2 in *. cbn [run].
  eapply Nat.le_trans; [|apply IH].
  destruct a as [|label v]; cbn [sys_step trace]; [|apply Nat.le_refl].
  rewrite dac_out_app, length_app. lia.
Qed.

Lemma write_within_deadline (evs : list action) :
  forall s : sys tone,
    live_inv s ->
    (write_deadline (task s) <= tick_count evs)%nat ->
    (List.length (dac_out (trace s)) <
     List.length (dac_out (trace (run2 evs s))))%nat.
Proof.
  induction evs as [|a evs IH]; intros s Hinv Hd.
  - pose proof (write_deadline_bounds (task s)). cbn [tick_count] in Hd. lia.
  - pose proof (live_inv_step a s Hinv) as Hinv'.
    destruct a as [|label v]; cbn [tick_count] in Hd.
    + change (run2 (Tick :: evs) s) with (run2 evs (step2 Tick s)).
      destruct (write_deadline_tick s Hinv) as [Hw|[Hsame Hlt]].
      * pose proof (run2_writes_mono evs (step2 Tick s)). lia.
      * rewrite <- Hsame. apply IH; [exact Hinv'|lia].
    + change (run2 (Key label v :: evs) s)
        with (run2 evs (step2 (Key label v) s)).
      apply (IH (step2 (Key label v) s) Hinv'). exact Hd.
Qed.

Lemma live_inv_run (evs : list action) :
  forall s : sys tone, live_inv s -> live_inv (run2 evs s).
Proof.
  induction evs as [|a evs IH]; intros s Hs; [exact Hs|].
  unfold run2 in *. cbn [run]. apply IH. now apply live_inv_step.
Qed.

(** X7: piano2.ino never leaves the DAC alone for long.  After any run from
    boot, every further stretch of the schedule in which the task takes at
    least eight steps contains a write to the DAC, whatever callbacks are
    interleaved. *)
Theorem piano2_writes_every_eight_steps (pre evs : list action) :
  (8 <= tick_count evs)%nat ->
  (List.length (dac_out (trace (run2 pre boot))) <
   List.length (dac_out (trace (run2 (pre ++ evs) boot))))%nat.
Proof.
  intros Hn. unfold run2 at 2. rewrite run_app.
  apply (write_within_deadline evs (run2 pre boot)).
  - apply live_inv_run. split; [now left|exact I].
  - pose proof (write_deadline_bounds (task (run2 pre boot))). lia.
Qed.

Lemma piano2_writes_every_eight_steps_witness :
  (8 <= tick_count (repeat Tick 8))%nat /\
  (List.length (dac_out (trace (run2 [Key "A" 1; Tick] boot))) <
   List.length
     (dac_out (trace (run2 ([Key "A" 1; Tick] ++ repeat Tick 8) boot))))%nat.
Proof.
  assert (H : (8 <= tick_count (repeat Tick 8))%nat)
    by (apply Nat.leb_le; reflexivity).
  split; [exact H|].
  exact (piano2_writes_every_eight_steps [Key "A" 1; Tick] (repeat Tick 8) H).
Defined.

(** *** A release between the test and the copy, in the earlier sketch *)

(** X8: the earlier sketch reads [currentFrequency] twice at the head of
    its loop, once to test it and once to copy it.  If a release (any event
    value other than 1) arrives between the two reads, the copy is 0 and the
    period computation divides by zero, before anything is written.
    piano2.ino, in the same situation, takes the silent branch and writes the
    midpoint. *)
Theorem rev1_release_before_copy_divides_by_zero (label : string) (v : Z) :
  v <> 1 ->
  (forall s : sys Rev1.tone,
     Rev1.pc (task s) = Rev1.L_latch ->
     Rev1.pc (task (run1 [Key label v; Tick; Tick] s)) = Rev1.L_fault /\
     to_uint32 (Rev1.frequency (task (run1 [Key label v; Tick; Tick] s))) = 0 /\
     trace (run1 [Key label v; Tick; Tick] s) = Rd 0 :: trace s) /\
  (forall s : sys tone,
     pc (task s) = L_latch ->
     pc (task (run2 [Key label v; Tick; Tick; Tick] s)) = L_check /\
     trace (run2 [Key label v; Tick; Tick; Tick] s) =
       Silence 128 :: Rd 0 :: trace s).
Proof.
  intros Hv. apply Z.eqb_neq in Hv. split.
  - intros [cf [fr ps i l] tr]. cbn [task Rev1.pc trace]. intros ->.
    unfold run1. cbn [run sys_step currentFrequency task trace].
    unfold Rev1.buttonCallback. rewrite Hv. now repeat split.
  - intros [cf [fr ps i l] tr]. cbn [task pc trace]. intros ->.
    unfold run2. cbn [run sys_step currentFrequency task trace].
    unfold buttonCallback. rewrite Hv. now repeat split.
Qed.

Lemma rev1_release_before_copy_divides_by_zero_witness :
  0 <> 1 /\
  Rev1.pc (task (run1 [Key "C" 1; Tick; Key "C" 0; Tick; Tick] boot1)) =
    Rev1.L_fault.
Proof.
  assert (H : 0 <> 1) by lia.
  split; [exact H|].
  exact (proj1 (proj1 (rev1_release_before_copy_divides_by_zero "C" 0 H)
                  (run1 [Key "C" 1; Tick] boot1) eq_refl)).
Defined.

(** ** Further properties of the touch callback *)

Lemma name_in_table (label : string) :
  In label noteNames -> exists f, In (label, f) NoteTable.
Proof.
  unfold NoteTable, noteNames, notes. cbn [combine In]. intros H.
  repeat (destruct H as [<-|H]; [eexists; tauto|]). contradiction.
Qed.

(** X9: the callback is idempotent: delivering the same event twice in a
    row leaves [currentFrequency] as after the first delivery; and a release
    or a press of a table name stores a value that does not depend on what
    was stored before. *)
Theorem callback_is_idempotent (label : string) (v : Z) :
  (forall c : Z,
     buttonCallback label v (buttonCallback label v c) =
     buttonCallback label v c) /\
  (v <> 1 \/ In label noteNames ->
   forall c c' : Z, buttonCallback label v c = buttonCallback label v c').
Proof.
  unfold buttonCallback. split.
  - intros c. destruct (v =? 1); [|reflexivity].
    rewrite !key_scan_first_match.
    destruct (first_match label); reflexivity.
  - intros H c c'. destruct (v =? 1) eqn:E; [|reflexivity].
    destruct H as [H|H]; [apply Z.eqb_eq in E; contradiction|].
    destruct (name_in_table label H) as [f Hf].
    rewrite !key_scan_first_match.
    now rewrite (first_match_in label f Hf).
Qed.

(** X10: keys further to the right play strictly higher frequencies, so two
    different names of the table never store the same frequency. *)
Theorem distinct_keys_distinct_frequencies :
  (forall j k : nat,
     (j < k < NUM_KEYS)%nat -> nth j notes 0 < nth k notes 0) /\
  (forall (L1 L2 : string) (c1 c2 : Z),
     In L1 noteNames -> In L2 noteNames ->
     buttonCallback L1 1 c1 = buttonCallback L2 1 c2 -> L1 = L2).
Proof.
  split.
  - intros j k [Hjk Hk]. unfold NUM_KEYS, notes in *. cbn [List.length] in Hk.
    do 8 (destruct k as [|k]; [
      do 8 (destruct j as [|j]; [cbn [nth]; lia|]); lia |]).
    lia.
  - intros L1 L2 c1 c2 H1 H2.
    unfold noteNames in H1, H2. cbn [In] in H1, H2.
    repeat (destruct H1 as [<-|H1]; [
      repeat (destruct H2 as [<-|H2];
              [intros H; first [reflexivity | discriminate H]|]);
      contradiction |]).
    contradiction.
Qed.

(** ** The keyboard layout *)

Lemma to_int_small (x : Z) : INT_MIN <= x <= INT_MAX -> to_int x = x.
Proof.
  unfold INT_MIN, INT_MAX, to_int. intros H.
  rewrite Z.mod_small; lia.
Qed.

Lemma key_width_bounds (W : Z) :
  0 <= W <= INT_MAX ->
  Z.quot W 8 = W / 8 /\ 0 <= W / 8 /\ 8 * (W / 8) <= W < 8 * (W / 8) + 8.
Proof.
  intros HW. split; [apply Z.quot_div_nonneg; lia|].
  pose proof (Z.div_mod W 8 ltac:(lia)) as Hdm.
  pose proof (Z.mod_pos_bound W 8 ltac:(lia)) as Hm.
  split; [apply Z.div_pos; lia|lia].
Qed.

(** The buttons of [drawPiano], once the [int] arithmetic is seen not to
    overflow. *)
Lemma created_drawPiano (handle : nat -> Z) (W H : Z) :
  0 <= W <= INT_MAX ->
  created (drawPiano handle W H) =
  map (fun k => mkButton (Z.of_nat k * (W / 8)) 0 (W / 8 - 2) H
                  (nth k noteNames EmptyString) (nth k noteNames EmptyString))
      (seq 0 8).
Proof.
  intros HW. destruct (key_width_bounds W HW) as [Hq [H0 Hb]].
  unfold drawPiano, NUM_KEYS, notes.
  cbn [List.length draw_keys created app seq map].
  change (Z.of_nat 8) with 8. rewrite Hq.
  assert (Hk : forall k : nat, (k < 8)%nat ->
                 to_int (Z.of_nat k * (W / 8)) = Z.of_nat k * (W / 8)).
  { intros k Hk. apply to_int_small. unfold INT_MIN, INT_MAX in *. nia. }
  rewrite !Hk by lia.
  rewrite (to_int_small (W / 8 - 2)) by (unfold INT_MIN, INT_MAX in *; lia).
  reflexivity.
Qed.

Lemma created_draw_setup1 (W : Z) (height : nat -> Z) :
  0 <= W <= INT_MAX ->
  created (draw_setup1 W height) =
  map (fun k => mkButton (Z.of_nat k * (W / 8)) 0 (W / 8) (height k)
                  (nth k noteNames EmptyString) (nth k noteNames EmptyString))
      (seq 0 8).
Proof.
  intros HW. destruct (key_width_bounds W HW) as [Hq [H0 Hb]].
  unfold draw_setup1.
  cbn [draw_keys1 created app seq map].
  rewrite Hq.
  assert (Hk : forall k : nat, (k < 8)%nat ->
                 to_int (Z.of_nat k * (W / 8)) = Z.of_nat k * (W / 8)).
  { intros k Hk. apply to_int_small. unfold INT_MIN, INT_MAX in *. nia. }
  rewrite !Hk by lia.
  reflexivity.
Qed.

Lemma nth_map_seq {A : Type} (f : nat -> A) (n k : nat) (d : A) :
  (k < n)%nat -> nth k (map f (seq 0 n)) d = f k.
Proof.
  intros Hk.
  rewrite (nth_indep _ d (f 0%nat)) by (now rewrite length_map, length_seq).
  rewrite (map_nth f). now rewrite seq_nth.
Qed.

(** X11: whatever the display size, the keys that [drawPiano] (and the
    [setup] of the earlier sketch) creates carry, from left to right, the
    names of the note table both as caption and as callback string; pressing
    them in that order stores exactly the frequencies of the table.  No key
    on the screen is a silent no-op. *)
Theorem keys_play_the_note_table
  (handle height : nat -> Z) (W H cf : Z) :
  map b_callback (created (drawPiano handle W H)) = noteNames /\
  map b_caption (created (drawPiano handle W H)) = noteNames /\
  map (fun b => buttonCallback (b_callback b) 1 cf)
      (created (drawPiano handle W H)) = notes /\
  map b_callback (created (draw_setup1 W height)) = noteNames /\
  map b_caption (created (draw_setup1 W height)) = noteNames /\
  map (fun b => Rev1.buttonCallback (b_callback b) 1 cf)
      (created (draw_setup1 W height)) = notes.
Proof.
  repeat split; reflexivity.
Qed.



(** X13: [drawPiano] does not guard against narrow displays.  The keys have
    a positive width exactly when the display is at least 24 wide; below
    that every key is created with width 0, -1 or -2, and below 8 all eight
    keys are created at x = 0. *)
Theorem narrow_display_gives_empty_keys
  (handle : nat -> Z) (W H : Z) (b : button) :
  0 <= W <= INT_MAX ->
  In b (created (drawPiano handle W H)) ->
  (0 < b_width b <-> 24 <= W) /\
  (W < 24 -> -2 <= b_width b <= 0) /\
  (W < 8 -> b_x b = 0 /\ b_width b = -2).
Proof.
  intros HW Hin. destruct (key_width_bounds W HW) as [_ [H0 Hb]].
  rewrite created_drawPiano in Hin by exact HW.
  apply in_map_iff in Hin. destruct Hin as [k [<- Hk]].
  apply in_seq in Hk. cbn [b_x b_width].
  repeat split; try lia; nia.
Qed.

Lemma narrow_display_gives_empty_keys_witness :
  0 <= 20 <= INT_MAX /\
  In (mkButton 6 0 0 100 "F" "F")
     (created (drawPiano (fun k => Z.of_nat k) 20 100)) /\
  (0 < 0 <-> 24 <= 20).
Proof.
  assert (H : 0 <= 20 <= INT_MAX) by (unfold INT_MAX; lia).
  assert (Hin : In (mkButton 6 0 0 100 "F" "F")
                   (created (drawPiano (fun k => Z.of_nat k) 20 100))).
  { cbn. tauto. }
  split; [exact H|]. split; [exact Hin|].
  exact (proj1 (narrow_display_gives_empty_keys (fun k => Z.of_nat k) 20 100
                  (mkButton 6 0 0 100 "F" "F") H Hin)).
Defined.

(** X14: the earlier sketch lays its keys out without a gap: the first key
    starts at 0, each key starts where its left neighbour ends, and the last
    one ends less than 8 units before the end of the display. *)
Theorem rev1_keys_tile_the_display
  (height : nat -> Z) (W : Z) (d : button) :
  0 <= W <= INT_MAX ->
  b_x (nth 0 (created (draw_setup1 W height)) d) = 0 /\
  (forall k : nat, (k < 7)%nat ->
     let b := nth k (created (draw_setup1 W height)) d in
     let b' := nth (S k) (created (draw_setup1 W height)) d in
     b_x b + b_width b = b_x b') /\
  (let last := nth 7 (created (draw_setup1 W height)) d in
   W - 8 < b_x last + b_width last <= W).
Proof.
  intros HW. destruct (key_width_bounds W HW) as [_ [H0 Hb]].
  rewrite created_draw_setup1 by exact HW.
  split; [|split].
  - rewrite nth_map_seq by lia. cbn [b_x]. lia.
  - intros k Hk. rewrite !nth_map_seq by lia. cbn [b_x b_width]. nia.
  - rewrite nth_map_seq by lia. cbn [b_x b_width]. lia.
Qed.

Lemma rev1_keys_tile_the_display_witness :
  0 <= 480 <= INT_MAX /\
  b_x (nth 0 (created (draw_setup1 480 (fun _ => 320)))
         (mkButton 1 1 1 1 EmptyString EmptyString)) = 0.
Proof.
  assert (H : 0 <= 480 <= INT_MAX) by (unfold INT_MAX; lia).
  split; [exact H|].
  exact (proj1 (rev1_keys_tile_the_display (fun _ => 320) 480
                  (mkButton 1 1 1 1 EmptyString EmptyString) H)).
Defined.

(** ** Start-up *)

Lemma await_connection_spec (results : list bool) :
  snd (await_connection results) = existsb (fun b => b) results /\
  count_delays (fst (await_connection results)) =
    failures_before_success results /\
  starts_tone_task (fst (await_connection results)) = false /\
  touches_display (fst (await_connection results)) = false.
Proof.
  induction results as [|[|] rest IH]; cbn [await_connection fst snd existsb
    count_delays failures_before_success starts_tone_task touches_display orb];
    try (now repeat split).
  destruct IH as [H1 [H2 [H3 H4]]]. repeat split; auto.
Qed.

Lemma count_delays_app (a b : list setup_cmd) :
  count_delays (a ++ b) = (count_delays a + count_delays b)%nat.
Proof.
  induction a as [|c a IH]; [reflexivity|].
  destruct c; cbn [app count_delays]; rewrite IH; reflexivity.
Qed.

Lemma starts_tone_task_app (a b : list setup_cmd) :
  starts_tone_task (a ++ b) = starts_tone_task a || starts_tone_task b.
Proof.
  induction a as [|c a IH]; [reflexivity|].
  destruct c; cbn [app starts_tone_task]; auto.
Qed.

Lemma touches_display_app (a b : list setup_cmd) :
  touches_display (a ++ b) = touches_display a || touches_display b.
Proof.
  induction a as [|c a IH]; [reflexivity|].
  destruct c; cbn [app touches_display]; auto.
Qed.

Lemma display_part (l : list display_cmd) :
  count_delays (map Display l) = 0%nat /\
  starts_tone_task (map Display l) = false.
Proof.
  induction l as [|c l [IH1 IH2]]; [now split|].
  cbn [map count_delays starts_tone_task]. now split.
Qed.

Lemma await_connection_closed (results : list bool) :
  fst (await_connection results) =
  List.concat
    (repeat [SerialPrintln "Timeout. Retrying..."; Delay 1000]
       (failures_before_success results)).
Proof.
  induction results as [|[|] rest IH];
    cbn [await_connection fst failures_before_success repeat List.concat app];
    try reflexivity.
  now rewrite IH.
Qed.

(** X15: [setup] logs "Timeout. Retrying..." and waits 1000 ms after every
    failed call of [begin], and goes on only after a call that succeeds.
    Its commands are: the two serial ports opened and the first log line;
    then that log line and that wait once for each failure before the first
    success; then, exactly when some call succeeds, the second log line, the
    keyboard and the creation of the tone task. *)
Theorem setup_waits_for_connection
  (results : list bool) (handle : nat -> Z) (W H : Z) :
  setup results handle W H =
    [SerialBegin 115200; BluetoothBegin 9600;
     SerialPrintln "Waiting for BlueDisplay app to connect..."]
    ++ List.concat
         (repeat [SerialPrintln "Timeout. Retrying..."; Delay 1000]
            (failures_before_success results))
    ++ (if existsb (fun b => b) results
        then SerialPrintln "BlueDisplay connected!"
             :: map Display (drawPiano handle W H)
             ++ [CreateToneTask 4096 1 1]
        else []) /\
  starts_tone_task (setup results handle W H) =
    existsb (fun b => b) results /\
  touches_display (setup results handle W H) =
    existsb (fun b => b) results /\
  count_delays (setup results handle W H) = failures_before_success results.
Proof.
  destruct (await_connection_spec results) as [H1 [H2 [H3 H4]]].
  split.
  { unfold setup. cbn zeta. now rewrite await_connection_closed, H1. }
  unfold setup.
  cbn [app starts_tone_task touches_display count_delays].
  rewrite starts_tone_task_app, touches_display_app, count_delays_app.
  rewrite H2, H3, H4, H1.
  destruct (display_part (drawPiano handle W H)) as [D1 D2].
  destruct (existsb (fun b => b) results).
  - cbn [starts_tone_task touches_display count_delays orb].
    rewrite starts_tone_task_app, count_delays_app, D1, D2.
    cbn. repeat split. lia.
  - cbn. repeat split. lia.
Qed.

(** ** How soon a change is seen *)

Lemma observe_deadline_tick (s : sys tone) :
  (observe_deadline (currentFrequency s) (task (step2 Tick s)) <=
   Nat.pred (observe_deadline (currentFrequency s) (task s)))%nat.
Proof.
  destruct s as [cf [fr ps i l] tr]. unfold observe_deadline.
  cbn [currentFrequency task].
  destruct (fr =? to_uint32 cf) eqn:E; destruct l; tone_simpl;
    rewrite ?E; tone_simpl;
    try (destruct (0 <? fr); tone_simpl);
    try (destruct (i <? ps) eqn:Ei; tone_simpl);
    cbn [frequency pc loop_i period_samples];
    rewrite ?E, ?Z.eqb_refl, ?Ei; cbn [Nat.pred]; try lia;
    repeat match goal with
           | |- context [if ?b then _ else _] => destruct b
           end; lia.
Qed.

Lemma observe_within_deadline (n : nat) :
  forall s : sys tone,
    (observe_deadline (currentFrequency s) (task s) <= n)%nat ->
    frequency (task (ticks2 n s)) = to_uint32 (currentFrequency s).
Proof.
  induction n as [|n IH]; intros s Hd.
  - unfold ticks2, ticks. cbn [repeat run].
    unfold observe_deadline in Hd.
    destruct (frequency (task s) =? to_uint32 (currentFrequency s)) eqn:E.
    + now apply Z.eqb_eq.
    + destruct (pc (task s)); try lia.
      destruct (loop_i (task s) <? period_samples (task s)); lia.
  - change (ticks2 (S n) s) with (ticks2 n (step2 Tick s)).
    pose proof (observe_deadline_tick s) as Ht.
    rewrite (IH (step2 Tick s)); [reflexivity|].
    change (currentFrequency (step2 Tick s)) with (currentFrequency s). lia.
Qed.

(** X16: piano2.ino picks up a change of [currentFrequency] within six
    steps of the tone task: from any state, after six or more task steps
    without a further callback the local [frequency] is the value
    [currentFrequency] holds, converted to [uint32_t]. *)
Theorem change_is_seen_within_six_steps (s : sys tone) (n : nat) :
  (6 <= n)%nat ->
  frequency (task (ticks2 n s)) = to_uint32 (currentFrequency s).
Proof.
  intros Hn. apply observe_within_deadline.
  unfold observe_deadline.
  destruct (frequency (task s) =? to_uint32 (currentFrequency s)); [lia|].
  destruct (pc (task s)); try lia.
  destruct (loop_i (task s) <? period_samples (task s)); lia.
Qed.

Lemma change_is_seen_within_six_steps_witness :
  (6 <= 6)%nat /\
  frequency (task (ticks2 6 (mkSys 440 (mkTone 262 76 3 L_delay) []))) = 440.
Proof.
  assert (H : (6 <= 6)%nat) by lia.
  split; [exact H|].
  exact (change_is_seen_within_six_steps
           (mkSys 440 (mkTone 262 76 3 L_delay) []) 6 H).
Defined.

(** ** What a run can write *)

Lemma note_or_zero_pos (f : Z) : note_or_zero f -> f <> 0 -> In f notes.
Proof. intros [->|H] Hne; [contradiction|exact H]. Qed.

Lemma tone_inv_step (a : action) (s : sys tone) :
  tone_inv s -> Forall note_event (trace s) ->
  tone_inv (step2 a s) /\ Forall note_event (trace (step2 a s)).
Proof.
  unfold tone_inv. destruct a as [|label v].
  - destruct s as [cf [fr ps i l] tr].
    cbn [currentFrequency task trace pc frequency period_samples loop_i].
    intros [Hcf [Hfr Hpc]] Htr.
    destruct l; tone_simpl.
    + (* L_check *)
      destruct (fr =? to_uint32 cf); tone_simpl;
        (split; [now repeat split|now constructor]).
    + (* L_latch *)
      split; [|now constructor].
      repeat split; auto using note_or_zero_uint32.
    + (* L_branch *)
      destruct (0 <? fr) eqn:E; tone_simpl; [|now repeat split].
      apply Z.ltb_lt in E.
      pose proof (period_bounds fr E).
      split; [|exact Htr]. repeat split; auto; try lia.
      apply note_or_zero_pos; [exact Hfr|lia].
    + (* L_for *)
      destruct Hpc as [Hin [Hps Hi]].
      destruct (i <? ps) eqn:E; tone_simpl; [|now repeat split].
      apply Z.ltb_lt in E. split; [|exact Htr]. repeat split; auto; lia.
    + (* L_write *)
      destruct Hpc as [Hin [Hps Hi]].
      split; [now repeat split|].
      constructor; [|exact Htr]. cbn [note_event]. split; [exact Hin|].
      exists i. rewrite <- Hps. now split.
    + (* L_recheck *)
      destruct (fr =? to_uint32 cf); tone_simpl;
        (split; [now repeat split|now constructor]).
    + (* L_delay *)
      destruct Hpc as [Hin [Hps Hi]].
      destruct (note_period fr Hin) as [_ Hp].
      rewrite to_uint32_small by lia.
      split; [|exact Htr]. repeat split; auto; lia.
    + (* L_silence *)
      split; [now repeat split|]. constructor; [reflexivity|exact Htr].
  - intros [Hcf Hrest] Htr. split; [|exact Htr].
    split; [|exact Hrest].
    unfold step2. cbn [sys_step currentFrequency].
    now apply buttonCallback_range.
Qed.

Lemma tone_inv1_step (a : action) (s : sys Rev1.tone) :
  tone_inv1 s -> Forall note_event (trace s) ->
  tone_inv1 (step1 a s) /\ Forall note_event (trace (step1 a s)).
Proof.
  unfold tone_inv1. destruct a as [|label v].
  - destruct s as [cf [fr ps i l] tr].
    cbn [currentFrequency task trace Rev1.pc Rev1.frequency Rev1.period
         Rev1.loop_i].
    intros [Hcf [Hfr Hpc]] Htr.
    destruct l; tone1_simpl.
    + (* L_check *)
      destruct (cf =? 0); tone1_simpl;
        (split; [now repeat split|now constructor]).
    + (* L_latch *)
      split; [now repeat split|now constructor].
    + (* L_period *)
      destruct (to_uint32 fr =? 0) eqn:E; tone1_simpl; [now repeat split|].
      assert (Hin : In fr notes).
      { apply note_or_zero_pos; [exact Hfr|]. intros ->. discriminate E. }
      destruct (note_period fr Hin) as [Hf Hp].
      rewrite to_uint32_small by (unfold INT_MAX in Hf; lia).
      split; [|exact Htr]. repeat split; auto; lia.
    + (* L_for *)
      destruct Hpc as [Hin [Hps Hi]].
      destruct (note_period fr Hin) as [_ Hp].
      rewrite to_uint32_small by lia.
      destruct (i <? ps) eqn:E; tone1_simpl; [|now repeat split].
      apply Z.ltb_lt in E. split; [|exact Htr]. repeat split; auto; lia.
    + (* L_write *)
      destruct Hpc as [Hin [Hps Hi]].
      split; [now repeat split|].
      constructor; [|exact Htr]. cbn [note_event]. split; [exact Hin|].
      exists i. rewrite <- Hps. now split.
    + (* L_delay *)
      destruct Hpc as [Hin [Hps Hi]].
      split; [|exact Htr]. repeat split; auto; lia.
    + (* L_silence *)
      split; [now repeat split|]. constructor; [reflexivity|exact Htr].
    + (* L_fault *)
      now repeat split.
  - intros [Hcf Hrest] Htr. split; [|exact Htr].
    split; [|exact Hrest].
    unfold step1. cbn [sys_step currentFrequency].
    rewrite rev1_buttonCallback_eq. now apply buttonCallback_range.
Qed.

(** X17: in every run of either sketch from boot, each waveform write is
    the sample of a note of the table at an index inside that note's period
    (so the quotient [i / period] in the sine argument never has a zero
    divisor and the loop index never wraps), each write of the silent branch
    is 128, and each value read from [currentFrequency] is 0 or a note. *)
Theorem runs_write_only_note_samples (evs : list action) :
  Forall note_event (trace (run2 evs boot)) /\
  Forall note_event (trace (run1 evs boot1)).
Proof.
  split.
  - assert (H : forall s, tone_inv s -> Forall note_event (trace s) ->
                  Forall note_event (trace (run2 evs s))).
    { induction evs as [|a evs IH]; intros s Hs Htr; [exact Htr|].
      destruct (tone_inv_step a s Hs Htr) as [Hs' Htr'].
      unfold run2 in *. cbn [run]. now apply IH. }
    apply H; [|constructor].
    split; [now left|]. split; [now left|exact I].
  - assert (H : forall s, tone_inv1 s -> Forall note_event (trace s) ->
                  Forall note_event (trace (run1 evs s))).
    { induction evs as [|a evs IH]; intros s Hs Htr; [exact Htr|].
      destruct (tone_inv1_step a s Hs Htr) as [Hs' Htr'].
      unfold run1 in *. cbn [run]. now apply IH. }
    apply H; [|constructor].
    split; [now left|]. split; [now left|exact I].
Qed.
